(** * Fortitude API Python client: the request-execution engine

    A shallow embedding of
    [fortitude/crates/fortitude-api-server/examples/python-client/fortitude_client.py]:
    the construction of [FortitudeClient] (configuration resolution), the
    blocking [FortitudeClient._make_request] and the cooperative
    [AsyncFortitudeClient._make_request], together with the Python
    primitives they use ([or], [str.rstrip], [int], [json.dumps], [dict.get]).

    Python values are modelled as they are at run time: [int] as [Z], [str]
    as [string] (one character per code point below 256), [dict] as an
    insertion-ordered association list, the [_cache] dictionary as a
    [gmap], exceptions as values of an inductive type threaded through a
    state-and-exception monad, and [time.time()] as a rational clock. *)

From Stdlib Require Import ZArith QArith Lqa String Ascii List Lia.
From stdpp Require Import base option list list_numbers sorting strings pretty gmap.

Local Open Scope string_scope.
Local Open Scope list_scope.
Local Open Scope Z_scope.

(** ** Python values *)

(** The values that [json.loads] produces and [json.dumps] consumes.
    [JNull] is Python's [None]; a [float] is carried by its [repr]
    (["inf"], ["-inf"] and ["nan"] for the values that are not finite). *)
#[local] Unset Elimination Schemes.
Inductive json : Type :=
| JNull
| JBool (b : bool)
| JInt (n : Z)
| JFloat (repr : string)
| JStr (s : string)
| JArr (items : list json)
| JObj (members : list (string * json)).

#[local] Set Elimination Schemes.

(** A Python [dict] with [str] keys, in insertion order. *)
Abbreviation dict := (list (string * json)).

(** [d[key]] when [key in d]. *)
Fixpoint dict_lookup (key : string) (d : dict) : option json :=
  match d with
  | [] => None
  | (k, v) :: d' => if String.eqb k key then Some v else dict_lookup key d'
  end.

(** [d.get(key, default)] *)
Definition dict_get (key : string) (d : dict) (default : json) : json :=
  match dict_lookup key d with
  | Some v => v
  | None => default
  end.

(** A well-formed value: no dictionary in it has a key twice. *)
#[local] Unset Elimination Schemes.
Inductive proper : json → Prop :=
| proper_null : proper JNull
| proper_bool b : proper (JBool b)
| proper_int n : proper (JInt n)
| proper_float r : proper (JFloat r)
| proper_str s : proper (JStr s)
| proper_arr items : Forall proper items → proper (JArr items)
| proper_obj members :
    NoDup members.*1 → Forall (λ kv, proper kv.2) members → proper (JObj members).

(** Equality of values that does not look at the order in which the keys
    of a dictionary were inserted: two dictionaries are equal when they
    have as many items and every item of the first has its key in the
    second, with an equal value. *)
Inductive same_value : json → json → Prop :=
| same_null : same_value JNull JNull
| same_bool b : same_value (JBool b) (JBool b)
| same_int n : same_value (JInt n) (JInt n)
| same_float r : same_value (JFloat r) (JFloat r)
| same_str s : same_value (JStr s) (JStr s)
| same_arr l1 l2 :
    Forall2 same_value l1 l2 → same_value (JArr l1) (JArr l2)
| same_obj d1 d2 :
    length d1 = length d2 →
    Forall (λ kv, ∃ v', dict_lookup kv.1 d2 = Some v' ∧ same_value kv.2 v') d1 →
    same_value (JObj d1) (JObj d2).
#[local] Set Elimination Schemes.

(** [type(v).__name__], as it appears in an [AttributeError]. *)
Definition type_name (v : json) : string :=
  match v with
  | JNull => "NoneType"
  | JBool _ => "bool"
  | JInt _ => "int"
  | JFloat _ => "float"
  | JStr _ => "str"
  | JArr _ => "list"
  | JObj _ => "dict"
  end.

(** ** Strings *)

(** [s.rstrip('/')] *)
Fixpoint rstrip_slash (s : string) : string :=
  match s with
  | EmptyString => EmptyString
  | String c s' =>
      match rstrip_slash s' with
      | EmptyString => if Ascii.eqb c "/" then EmptyString else String c EmptyString
      | r => String c r
      end
  end.

(** Characters that [int] strips from the ends of its argument (code points
    below 256): the white space of ASCII, and U+0085 and U+00A0. The
    separators U+001C to U+001F, which [str.isspace] accepts, are not
    among them. *)
Definition py_isspace (c : ascii) : bool :=
  let n := Z.of_N (N_of_ascii c) in
  ((9 <=? n) && (n <=? 13)) || (n =? 32) || (n =? 133) || (n =? 160).

Fixpoint lstrip_space (s : string) : string :=
  match s with
  | EmptyString => EmptyString
  | String c s' => if py_isspace c then lstrip_space s' else s
  end.

Fixpoint rstrip_space (s : string) : string :=
  match s with
  | EmptyString => EmptyString
  | String c s' =>
      match rstrip_space s' with
      | EmptyString => if py_isspace c then EmptyString else String c EmptyString
      | r => String c r
      end
  end.

Definition digit_value (c : ascii) : option Z :=
  let n := Z.of_N (N_of_ascii c) in
  if (48 <=? n) && (n <=? 57) then Some (n - 48) else None.

(** Decimal digits, with single underscores allowed between digits.
    [after_digit] tells whether the previous character was a digit. *)
Fixpoint parse_digits (acc : Z) (after_digit : bool) (s : string) : option Z :=
  match s with
  | EmptyString => if after_digit then Some acc else None
  | String c s' =>
      match digit_value c with
      | Some d => parse_digits (10 * acc + d) true s'
      | None =>
          if Ascii.eqb c "_" && after_digit then parse_digits acc false s' else None
      end
  end.

(** The number of digits of a literal, and the most that [int] converts
    when the interpreter runs with its default limit
    ([sys.int_info.default_max_str_digits]). *)
Fixpoint count_digits (s : string) : nat :=
  match s with
  | EmptyString => 0
  | String c s' =>
      match digit_value c with
      | Some _ => S (count_digits s')
      | None => count_digits s'
      end
  end.

Definition max_str_digits : nat := 4300.

(** The literal without its sign: its digits are limited in number. *)
Definition int_literal (t : string) : option Z :=
  if (max_str_digits <? count_digits t)%nat then None else parse_digits 0 false t.

(** [int(s)] for a [str] argument: [None] stands for [ValueError]. *)
Definition py_int (s : string) : option Z :=
  match lstrip_space (rstrip_space s) with
  | String "+" r => int_literal r
  | String "-" r => Z.opp <$> int_literal r
  | t => int_literal t
  end.

(** The digits and underscores at the head of a literal. *)
Fixpoint digit_run (s : string) : string :=
  match s with
  | EmptyString => EmptyString
  | String c s' =>
      match digit_value c with
      | Some _ => String c (digit_run s')
      | None => if Ascii.eqb c "_" then String c (digit_run s') else EmptyString
      end
  end.

(** [sep.join(l)] *)
Fixpoint join (sep : string) (l : list string) : string :=
  match l with
  | [] => EmptyString
  | [x] => x
  | x :: l' => x +:+ sep +:+ join sep l'
  end.

(** ** [json.dumps(v, sort_keys=True)] *)

Definition hex_digit (n : N) : ascii :=
  ascii_of_N (if (n <? 10)%N then 48 + n else 87 + n).

(** One character of a string literal, with [ensure_ascii] on. *)
Definition escape_char (c : ascii) : string :=
  let n := N_of_ascii c in
  if (n =? 34)%N then String "\" (String c EmptyString)
  else if (n =? 92)%N then "\\"
  else if (n =? 8)%N then "\b"
  else if (n =? 9)%N then "\t"
  else if (n =? 10)%N then "\n"
  else if (n =? 12)%N then "\f"
  else if (n =? 13)%N then "\r"
  else if ((32 <=? n) && (n <=? 126))%N then String c EmptyString
  else "\u00" +:+ String (hex_digit (n / 16)) (String (hex_digit (n mod 16)) EmptyString).

Fixpoint escape_chars (s : string) : string :=
  match s with
  | EmptyString => EmptyString
  | String c s' => escape_char c +:+ escape_chars s'
  end.

Definition dquote : string := String (ascii_of_N 34) EmptyString.

Definition encode_string (s : string) : string :=
  dquote +:+ escape_chars s +:+ dquote.

(** Items are ordered by key, with Python's order on [str]. *)
Definition key_le (a b : string * string) : Prop := String.le a.1 b.1.

Global Instance key_le_dec : RelDecision key_le.
Proof. intros a b. unfold key_le. apply _. Defined.

Definition dumps_item (kv : string * string) : string :=
  encode_string kv.1 +:+ ": " +:+ kv.2.

(** The encoder sorts the items of every dictionary by key and then emits
    them; encoding the values first and sorting afterwards gives the same
    text, the order depending on the keys only. *)
Fixpoint dumps (v : json) : string :=
  match v with
  | JNull => "null"
  | JBool true => "true"
  | JBool false => "false"
  | JInt n => pretty n
  | JFloat r =>
      if String.eqb r "nan" then "NaN"
      else if String.eqb r "inf" then "Infinity"
      else if String.eqb r "-inf" then "-Infinity"
      else r
  | JStr s => encode_string s
  | JArr items => "[" +:+ join ", " (map dumps items) +:+ "]"
  | JObj members =>
      "{" +:+ join ", " (map dumps_item
                           (merge_sort key_le
                              (map (fun kv => (kv.1, dumps kv.2)) members)))
          +:+ "}"
  end.


(** ** Exceptions *)

(** [FortitudeAPIError]: the fields its constructor stores. A field that is
    [None] in Python is [JNull] here (and [None] for [status_code]). *)
Record FortitudeAPIError : Type := {
  message : json;
  error_code : json;
  status_code : option Z;
  request_id : json;
  details : json
}.

(** [FortitudeAPIError(message)], the other arguments at their defaults. *)
Definition plain_error (msg : string) : FortitudeAPIError :=
  {| message := JStr msg; error_code := JNull; status_code := None;
     request_id := JNull; details := JNull |}.

(** The exception classes that the two clients raise, catch or let through.
    [RequestException] is [requests.exceptions.RequestException] and
    [ClientError] is [aiohttp.ClientError], each with its subclasses other
    than the ones listed apart; [TimeoutError] is [asyncio.TimeoutError],
    which is no [ClientError] and has no text; [OtherError] is an
    exception of any other class, given by its name. *)
Inductive exn : Type :=
| ApiError (e : FortitudeAPIError)
| RequestException (what : string)
| JSONDecodeError (what : string)
| AttributeError (what : string)
| ClientError (what : string)
| ContentTypeError (what : string)
| RuntimeError (what : string)
| ValueError (what : string)
| TimeoutError
| OtherError (class_ what : string).

(** [str(e)] *)
Definition exn_str (e : exn) : string :=
  match e with
  | ApiError _ => EmptyString
  | RequestException w | JSONDecodeError w | AttributeError w | ClientError w
  | ContentTypeError w | RuntimeError w | ValueError w | OtherError _ w => w
  | TimeoutError => EmptyString
  end.

(** ** The transport *)

(** The arguments of [session.request]. *)
Record http_request : Type := {
  req_method : string;
  req_url : string;
  req_json : option json;
  req_params : option dict;
  req_timeout : Z
}.

(** What decoding the body of a response as JSON gives: a value, or the
    text of the decoding error. A body that is empty or white space is kept
    apart: requests fails to decode it, with the error text [why], where
    aiohttp gives [None]. *)
Inductive json_body : Type :=
| Decoded (v : json)
| Undecodable (why : string)
| Blank (why : string).

(** A response of the server. [mimetype_error] is [None] when the
    Content-Type header announces JSON, and otherwise the text of the
    [ContentTypeError] that aiohttp raises; requests does not look at it. *)
Record Response : Type := {
  status : Z;
  text : string;
  body : json_body;
  mimetype_error : option string
}.

(** What [session.request] may raise from outside the hierarchy of its
    library: the [ValueError] of urllib3 for a timeout that is not
    positive, the [RuntimeError] of aiohttp for a session that is closed,
    [asyncio.TimeoutError] when the timeout of an aiohttp session runs out,
    or an exception of any other class. *)
Inductive foreign : Type :=
| ForeignValueError (what : string)
| ForeignRuntimeError (what : string)
| ForeignTimeoutError
| ForeignError (class_ what : string).

Definition raise_foreign (f : foreign) : exn :=
  match f with
  | ForeignValueError what => ValueError what
  | ForeignRuntimeError what => RuntimeError what
  | ForeignTimeoutError => TimeoutError
  | ForeignError class_ what => OtherError class_ what
  end.

(** One call of [session.request] brings a response or raises. [Failed]
    is a failure that the library reports in its own hierarchy, the one
    that its client catches: [RequestException] for requests, its
    [Timeout] included, and [ClientError] for aiohttp; the text is [str]
    of the exception. [Raised] is an exception from outside that
    hierarchy. *)
Inductive outcome : Type :=
| Failed (what : string)
| Raised (f : foreign)
| Responded (r : Response).

Record exchange : Type := {
  latency : Q;
  result : outcome
}.

(** ** The world a client runs in *)

(** A value of the [_cache] dictionary: [{'data': ..., 'timestamp': ...}]. *)
Record cache_entry : Type := {
  data : json;
  timestamp : Q
}.

(** The mutable state: the client's [_cache], the clock that [time.time()]
    reads, the number of dispatches made so far and the delays slept. The
    clock is a virtual one, read as an exact number: it advances by the
    time that each dispatch takes and by each delay slept. The properties
    use it to compare the age of a cache entry with [cache_ttl] only. *)
Record state : Type := {
  _cache : gmap string cache_entry;
  now : Q;
  sent : nat;
  slept : list Z
}.

(** ** A state-and-exception monad *)

Inductive res (A : Type) : Type :=
| Ret (a : A)
| Raise (e : exn).
Arguments Ret {A} a.
Arguments Raise {A} e.

Definition M (A : Type) : Type := state → res A * state.

Global Instance M_ret : MRet M := λ A a s, (Ret a, s).

Global Instance M_bind : MBind M := λ A B f m s,
  match m s with
  | (Ret a, s') => f a s'
  | (Raise e, s') => (Raise e, s')
  end.

Definition raise {A} (e : exn) : M A := λ s, (Raise e, s).

(** [try: m  except <class matched by handles>: h] *)
Definition try_except {A} (m : M A) (handles : exn → bool) (h : exn → M A) : M A :=
  λ s, match m s with
       | (Raise e, s') => if handles e then h e s' else (Raise e, s')
       | r => r
       end.

Definition time_time : M Q := λ s, (Ret (now s), s).

Definition time_sleep (delay : Z) : M unit := λ s,
  (Ret tt, {| _cache := _cache s; now := (now s + inject_Z delay)%Q;
              sent := sent s; slept := slept s ++ [delay] |}).

Definition cache_get (key : string) : M (option cache_entry) := λ s,
  (Ret (_cache s !! key), s).

Definition cache_set (key : string) (e : cache_entry) : M unit := λ s,
  (Ret tt, {| _cache := <[key := e]> (_cache s); now := now s;
              sent := sent s; slept := slept s |}).

(** The configuration of a constructed client ([self]). *)
Record FortitudeClient : Type := {
  api_key : string;
  base_url : string;
  timeout : Z;
  max_retries : Z;
  enable_cache : bool;
  cache_ttl : Z
}.

(** The loop body ends in [return result] or in [continue] (or raises). *)
Inductive control : Type :=
| Return (v : json)
| Continue.

(** [for attempt in attempts: body]; [None] when the loop runs out. *)
Fixpoint for_attempts (body : Z → M control) (attempts : list Z) : M (option json) :=
  match attempts with
  | [] => mret None
  | attempt :: rest =>
      c ← body attempt;
      match c with
      | Return v => mret (Some v)
      | Continue => for_attempts body rest
      end
  end.

(** [range(n)] *)
Definition range (n : Z) : list Z := seqZ 0 n.

(** [status in [429, 500, 502, 503, 504]] *)
Definition transient (st : Z) : bool :=
  bool_decide (st ∈ [429; 500; 502; 503; 504]).

(** [time.time() - ts < ttl] *)
Definition fresh (t ts : Q) (ttl : Z) : bool :=
  negb (Qle_bool (inject_Z ttl) (t - ts)).

(** [params or {}] *)
Definition params_or_empty (params : option dict) : dict :=
  match params with
  | Some d => d
  | None => []
  end.

Section Engine.

(** [urllib.parse.urljoin] and the remote side: the [n]-th dispatch of the
    session, for a given request, takes some time and has some outcome. *)
Variable urljoin : string → string → string.
Variable transport : nat → http_request → exchange.

(** [session.request(...)], with the class in which the library reports a
    failure. *)
Definition dispatch (failure : string → exn) (rq : http_request) :
    M Response := λ s,
  let x := transport (sent s) rq in
  let s' := {| _cache := _cache s; now := (now s + latency x)%Q;
               sent := S (sent s); slept := slept s |} in
  match result x with
  | Failed what => (Raise (failure what), s')
  | Raised f => (Raise (raise_foreign f), s')
  | Responded r => (Ret r, s')
  end.

(** [f"{method}:{url}:{json.dumps(params or {}, sort_keys=True)}"] *)
Definition cache_key (method url : string) (params : option dict) : string :=
  method +:+ ":" +:+ url +:+ ":" +:+ dumps (JObj (params_or_empty params)).

(** The cache check at the head of [_make_request]: the stored data on a
    live hit, nothing otherwise. *)
Definition cache_check (self : FortitudeClient) (method key : string)
    (use_cache : bool) : M (option json) :=
  if use_cache && enable_cache self && String.eqb method "GET" then
    entry ← cache_get key;
    match entry with
    | Some cache_entry =>
        t ← time_time;
        if fresh t (timestamp cache_entry) (cache_ttl self)
        then mret (Some (data cache_entry))
        else mret None
    | None => mret None
    end
  else mret None.

(** ** The blocking client *)

(** Whether [response.json()] of requests raises a subclass of
    [RequestException] (it does since requests 2.27; before, a plain
    [json.JSONDecodeError]). *)
Variable json_error_is_request_exception : bool.

Definition is_RequestException (e : exn) : bool :=
  match e with
  | RequestException _ => true
  | JSONDecodeError _ => json_error_is_request_exception
  | _ => false
  end.

Definition is_JSONDecodeError (e : exn) : bool :=
  match e with
  | JSONDecodeError _ => true
  | _ => false
  end.

(** [response.json()] of requests. *)
Definition response_json (r : Response) : M json :=
  match body r with
  | Decoded v => mret v
  | Undecodable why | Blank why => raise (JSONDecodeError why)
  end.

(** [raise FortitudeAPIError(message=error_data.get('message', 'Unknown error'), ...)];
    [error_data.get] exists on a [dict] only. *)
Definition raise_from_body {A} (error_data : json) (st : Z) : M A :=
  match error_data with
  | JObj d =>
      raise (ApiError {| message := dict_get "message" d (JStr "Unknown error");
                         error_code := dict_get "error_code" d JNull;
                         status_code := Some st;
                         request_id := dict_get "request_id" d JNull;
                         details := dict_get "details" d JNull |})
  | v => raise (AttributeError ("'" +:+ type_name v +:+ "' object has no attribute 'get'"))
  end.

(** [raise FortitudeAPIError(message=f"HTTP {status}: {text}", status_code=status)] *)
Definition raise_raw {A} (st : Z) (txt : string) : M A :=
  raise (ApiError {| message := JStr ("HTTP " +:+ pretty st +:+ ": " +:+ txt);
                     error_code := JNull; status_code := Some st;
                     request_id := JNull; details := JNull |}).

(** The body of the [for] loop of [FortitudeClient._make_request]. *)
Definition attempt_body (self : FortitudeClient) (method url : string)
    (data : option json) (params : option dict) (use_cache : bool)
    (cache_key : string) (attempt : Z) : M control :=
  try_except
    (response ← dispatch RequestException
                  {| req_method := method; req_url := url; req_json := data;
                     req_params := params; req_timeout := timeout self |};
     proceed ←
       (if status response =? 200 then
          result ← response_json response;
          (if use_cache && enable_cache self && String.eqb method "GET" then
             t ← time_time;
             cache_set cache_key {| data := result; timestamp := t |}
           else mret tt);;
          mret (Some (Return result))
        else if transient (status response) then
          if attempt <? max_retries self then
            let delay := 2 ^ attempt in
            time_sleep delay;;
            mret (Some Continue)
          else mret None
        else mret None);
     match proceed with
     | Some c => mret c
     | None =>
         try_except
           (error_data ← response_json response;
            raise_from_body error_data (status response))
           is_JSONDecodeError
           (λ _, raise_raw (status response) (text response))
     end)
    is_RequestException
    (λ e,
       if attempt <? max_retries self then
         let delay := 2 ^ attempt in
         time_sleep delay;;
         mret Continue
       else raise (ApiError (plain_error ("Request failed: " +:+ exn_str e)))).

(** [FortitudeClient._make_request] *)
Definition _make_request (self : FortitudeClient) (method endpoint : string)
    (data : option json) (params : option dict) (use_cache : bool) : M json :=
  let url := urljoin (base_url self) endpoint in
  let cache_key := cache_key method url params in
  hit ← cache_check self method cache_key use_cache;
  match hit with
  | Some cached => mret cached
  | None =>
      r ← for_attempts
            (attempt_body self method url data params use_cache cache_key)
            (range (max_retries self + 1));
      match r with
      | Some v => mret v
      | None => raise (ApiError (plain_error "Max retries exceeded"))
      end
  end.

(** ** The cooperative client *)

(** [self] of an [AsyncFortitudeClient]: the same configuration, and
    whether [_session] has been set by [__aenter__]. *)
Record AsyncFortitudeClient : Type := {
  config : FortitudeClient;
  _session : bool
}.

Definition is_ClientError (e : exn) : bool :=
  match e with
  | ClientError _ | ContentTypeError _ => true
  | _ => false
  end.

Definition is_ContentTypeError (e : exn) : bool :=
  match e with
  | ContentTypeError _ => true
  | _ => false
  end.

(** [await response.json()] of aiohttp: the Content-Type header is checked
    before the body is decoded, and a body that is empty or white space
    gives [None]. *)
Definition aio_response_json (r : Response) : M json :=
  match mimetype_error r with
  | Some why => raise (ContentTypeError why)
  | None =>
      match body r with
      | Decoded v => mret v
      | Undecodable why => raise (JSONDecodeError why)
      | Blank _ => mret JNull
      end
  end.

(** The body of the [for] loop of [AsyncFortitudeClient._make_request]
    (the timeout is the one the session was opened with). *)
Definition async_attempt_body (self : FortitudeClient) (method url : string)
    (data : option json) (params : option dict) (use_cache : bool)
    (cache_key : string) (attempt : Z) : M control :=
  try_except
    (response ← dispatch ClientError
                  {| req_method := method; req_url := url; req_json := data;
                     req_params := params; req_timeout := timeout self |};
     proceed ←
       (if status response =? 200 then
          result ← aio_response_json response;
          (if use_cache && enable_cache self && String.eqb method "GET" then
             t ← time_time;
             cache_set cache_key {| data := result; timestamp := t |}
           else mret tt);;
          mret (Some (Return result))
        else if transient (status response) then
          if attempt <? max_retries self then
            let delay := 2 ^ attempt in
            time_sleep delay;;
            mret (Some Continue)
          else mret None
        else mret None);
     match proceed with
     | Some c => mret c
     | None =>
         try_except
           (error_data ← aio_response_json response;
            raise_from_body error_data (status response))
           is_ContentTypeError
           (λ _, raise_raw (status response) (text response))
     end)
    is_ClientError
    (λ e,
       if attempt <? max_retries self then
         let delay := 2 ^ attempt in
         time_sleep delay;;
         mret Continue
       else raise (ApiError (plain_error ("Request failed: " +:+ exn_str e)))).

(** [AsyncFortitudeClient._make_request], run to completion. *)
Definition async_make_request (self : AsyncFortitudeClient) (method endpoint : string)
    (data : option json) (params : option dict) (use_cache : bool) : M json :=
  if negb (_session self) then
    raise (RuntimeError "Client not initialized. Use 'async with' statement.")
  else
    let url := urljoin (base_url (config self)) endpoint in
    let cache_key := cache_key method url params in
    hit ← cache_check (config self) method cache_key use_cache;
    match hit with
    | Some cached => mret cached
    | None =>
        r ← for_attempts
              (async_attempt_body (config self) method url data params use_cache cache_key)
              (range (max_retries (config self) + 1));
        match r with
        | Some v => mret v
        | None => raise (ApiError (plain_error "Max retries exceeded"))
        end
    end.

(** ** Derived notions used in the statements *)

(** The exception that the error branch of the loop body raises for a
    response. *)
Definition error_for (r : Response) : exn :=
  match body r with
  | Decoded (JObj d) =>
      ApiError {| message := dict_get "message" d (JStr "Unknown error");
                  error_code := dict_get "error_code" d JNull;
                  status_code := Some (status r);
                  request_id := dict_get "request_id" d JNull;
                  details := dict_get "details" d JNull |}
  | Decoded v => AttributeError ("'" +:+ type_name v +:+ "' object has no attribute 'get'")
  | Undecodable _ | Blank _ =>
      ApiError {| message := JStr ("HTTP " +:+ pretty (status r) +:+ ": " +:+ text r);
                  error_code := JNull; status_code := Some (status r);
                  request_id := JNull; details := JNull |}
  end.

(** The number of dispatches made between two states. *)
Definition dispatched (s s' : state) : Z := Z.of_nat (sent s') - Z.of_nat (sent s).

(** The state after one dispatch that took [d] seconds. *)
Definition after_dispatch (d : Q) (s : state) : state :=
  {| _cache := _cache s; now := (now s + d)%Q; sent := S (sent s); slept := slept s |}.

Definition after_sleep (delay : Z) (s : state) : state :=
  {| _cache := _cache s; now := (now s + inject_Z delay)%Q; sent := sent s;
     slept := slept s ++ [delay] |}.

Definition max_retries_exceeded : exn := ApiError (plain_error "Max retries exceeded").

(** The outcomes after which the loop may go round again. *)
Definition retryable (x : outcome) : bool :=
  match x with
  | Failed _ => true
  | Raised _ => false
  | Responded r =>
      if status r =? 200 then
        match body r with
        | Decoded _ => false
        | Undecodable _ | Blank _ => json_error_is_request_exception
        end
      else transient (status r)
  end.

(** One iteration of the blocking loop, as a relation: it dispatches once,
    and then goes round again after sleeping, returns, or raises. *)
Inductive body_step (self : FortitudeClient) (rq : http_request)
    (cacheable : bool) (key : string) (attempt : Z) (s : state) :
    res control → state → Prop :=
| step_continue :
    attempt < max_retries self →
    retryable (result (transport (sent s) rq)) = true →
    body_step self rq cacheable key attempt s (Ret Continue)
      (after_sleep (2 ^ attempt) (after_dispatch (latency (transport (sent s) rq)) s))
| step_return r v :
    result (transport (sent s) rq) = Responded r →
    status r = 200 → body r = Decoded v →
    body_step self rq cacheable key attempt s (Ret (Return v))
      (let s1 := after_dispatch (latency (transport (sent s) rq)) s in
       if cacheable
       then {| _cache := <[key := {| data := v; timestamp := now s1 |}]> (_cache s1);
               now := now s1; sent := sent s1; slept := slept s1 |}
       else s1)
| step_raise e :
    e ≠ max_retries_exceeded →
    (retryable (result (transport (sent s) rq)) = true → max_retries self ≤ attempt) →
    (∀ r, result (transport (sent s) rq) = Responded r → status r ≠ 200 → e = error_for r) →
    body_step self rq cacheable key attempt s (Raise e)
      (after_dispatch (latency (transport (sent s) rq)) s).

(** A run of the loop over the remaining attempts, as a relation. *)
Inductive loop_run (self : FortitudeClient) (rq : http_request)
    (cacheable : bool) (key : string) :
    list Z → state → res (option json) → state → Prop :=
| run_out s :
    loop_run self rq cacheable key [] s (Ret None) s
| run_continue attempt rest s s1 r s' :
    body_step self rq cacheable key attempt s (Ret Continue) s1 →
    loop_run self rq cacheable key rest s1 r s' →
    loop_run self rq cacheable key (attempt :: rest) s r s'
| run_return attempt rest s v s1 :
    body_step self rq cacheable key attempt s (Ret (Return v)) s1 →
    loop_run self rq cacheable key (attempt :: rest) s (Ret (Some v)) s1
| run_raise attempt rest s e s1 :
    body_step self rq cacheable key attempt s (Raise e) s1 →
    loop_run self rq cacheable key (attempt :: rest) s (Raise e) s1.

End Engine.

(** ** Constructing a client *)

(** [repr(s)] of a [str]. *)
Definition contains (c : ascii) (s : string) : bool :=
  existsb (Ascii.eqb c) (list_ascii_of_string s).

Definition repr_char (quote : ascii) (c : ascii) : string :=
  let n := N_of_ascii c in
  if Ascii.eqb c quote || (n =? 92)%N then String "\" (String c EmptyString)
  else if (n =? 9)%N then "\t"
  else if (n =? 10)%N then "\n"
  else if (n =? 13)%N then "\r"
  else if ((n <? 32) || ((127 <=? n) && (n <=? 160)) || (n =? 173))%N then
    "\x" +:+ String (hex_digit (n / 16)) (String (hex_digit (n mod 16)) EmptyString)
  else String c EmptyString.

Fixpoint repr_chars (quote : ascii) (s : string) : string :=
  match s with
  | EmptyString => EmptyString
  | String c s' => repr_char quote c +:+ repr_chars quote s'
  end.

Definition py_repr (s : string) : string :=
  let quote := if contains "'" s && negb (contains (ascii_of_N 34) s)
               then ascii_of_N 34 else "'"%char in
  String quote (repr_chars quote s +:+ String quote EmptyString).

(** The outcome of an expression that may raise. *)
Definition res_bind {A B} (x : res A) (f : A → res B) : res B :=
  match x with
  | Ret a => f a
  | Raise e => Raise e
  end.

(** The text of the [ValueError] of [int(s)]: the digits at the head of the
    literal are counted before what follows them is looked at. *)
Definition int_error (s : string) : string :=
  let t := lstrip_space (rstrip_space s) in
  let literal :=
    match t with
    | String "+" r => r
    | String "-" r => r
    | _ => t
    end in
  let run := digit_run literal in
  match parse_digits 0 false run with
  | Some _ =>
      if (max_str_digits <? count_digits run)%nat then
        "Exceeds the limit (4300 digits) for integer string conversion: value has "
        +:+ pretty (count_digits run)
        +:+ " digits; use sys.set_int_max_str_digits() to increase the limit"
      else "invalid literal for int() with base 10: " +:+ py_repr s
  | None => "invalid literal for int() with base 10: " +:+ py_repr s
  end.

(** [int(s)], with its [ValueError]. *)
Definition int_of_str (s : string) : res Z :=
  match py_int s with
  | Some n => Ret n
  | None => Raise (ValueError (int_error s))
  end.

(** The number of digits of the decimal text of a number. *)
Definition decimal_digits (z : Z) : nat := String.length (pretty (Z.abs z)).

(** [os.getenv(name, default)] in an environment [env]. *)
Definition getenv (env : string → option string) (name default : string) : string :=
  match env name with
  | Some v => v
  | None => default
  end.

(** [x or y] for an optional [str]: [None] and the empty string are falsy. *)
Definition str_or {A} (x : option string) (truthy : string → A) (y : A) : A :=
  match x with
  | Some (String c s) => truthy (String c s)
  | _ => y
  end.

(** [x or y] for an optional [int]: [None] and [0] are falsy; [y] is
    evaluated only then. *)
Definition int_or (x : option Z) (y : res Z) : res Z :=
  match x with
  | Some 0 | None => y
  | Some n => Ret n
  end.

(** [FortitudeClient.__init__], up to the creation of the session. *)
Definition FortitudeClient_init (env : string → option string)
    (api_key base_url : option string) (timeout max_retries : option Z)
    (enable_cache : bool) (cache_ttl : Z) : res FortitudeClient :=
  let api_key := str_or api_key Some (env "FORTITUDE_API_KEY") in
  let base_url :=
    rstrip_slash
      (str_or base_url id (getenv env "FORTITUDE_BASE_URL" "http://localhost:8080")) in
  res_bind (int_or timeout (int_of_str (getenv env "FORTITUDE_TIMEOUT" "30")))
    (λ timeout,
  res_bind (int_or max_retries (int_of_str (getenv env "FORTITUDE_MAX_RETRIES" "3")))
    (λ max_retries,
  str_or api_key
    (λ key, Ret {| api_key := key; base_url := base_url; timeout := timeout;
                   max_retries := max_retries; enable_cache := enable_cache;
                   cache_ttl := cache_ttl |})
    (Raise (ValueError "API key is required. Set FORTITUDE_API_KEY environment variable or pass api_key parameter.")))).


(** Whether requests and aiohttp decode the body of a response alike: both
    decode it to the value, or (the status not being 200) neither does. *)
Definition decodes_alike (r : Response) : bool :=
  match mimetype_error r, body r with
  | None, Decoded _ => true
  | Some _, Undecodable _ | Some _, Blank _ => negb (status r =? 200)
  | _, _ => false
  end.

(** Whether aiohttp and requests report a call of [session.request]
    alike: both report a failure in their own hierarchy, with the same
    text, or both bring the same response, one whose body both decode
    alike. An exception from outside the hierarchy of the library (a
    timeout of aiohttp, a timeout that urllib3 refuses) is never reported
    alike. *)
Inductive reported_alike : outcome → outcome → Prop :=
| alike_failed what : reported_alike (Failed what) (Failed what)
| alike_responded r :
    decodes_alike r = true → reported_alike (Responded r) (Responded r).

(** The resolution rule in the words of the specification: the explicit
    parameter, else the environment variable, else the default. *)
Definition resolve {A} (explicit from_env : option A) (default : A) : A :=
  match explicit, from_env with
  | Some x, _ => x
  | None, Some y => y
  | None, None => default
  end.

(** ** The endpoint methods *)

(** [d[key] = v] on an insertion-ordered dictionary: the value is replaced
    in place when the key is there, and appended otherwise. *)
Fixpoint alist_set {A} (key : string) (v : A) (d : list (string * A)) : list (string * A) :=
  match d with
  | [] => [(key, v)]
  | (k, x) :: d' =>
      if String.eqb k key then (k, v) :: d' else (k, x) :: alist_set key v d'
  end.

(** [d.get(key, default)] *)
Fixpoint alist_get {A} (key : string) (d : list (string * A)) (default : A) : A :=
  match d with
  | [] => default
  | (k, x) :: d' => if String.eqb k key then x else alist_get key d' default
  end.

(** [if x: d[key] = x], for an optional [str], [dict] and list of [str]. *)
Definition set_if_str (key : string) (x : option string) (d : dict) : dict :=
  match x with
  | Some (String c s) => alist_set key (JStr (String c s)) d
  | _ => d
  end.



Section Endpoints.

Variable urljoin : string → string → string.
Variable transport : nat → http_request → exchange.
Variable json_error_is_request_exception : bool.

Let request := _make_request urljoin transport json_error_is_request_exception.


Definition get_protected_health (self : FortitudeClient) : M json :=
  request self "GET" "/api/v1/health/protected" None None true.


Definition get_research_result (self : FortitudeClient) (research_id : string) : M json :=
  request self "GET" ("/api/v1/research/" +:+ research_id) None None true.

Definition list_research_results (self : FortitudeClient) (limit offset : Z)
    (query : option string) : M json :=
  let params := [("limit", JInt limit); ("offset", JInt offset)] in
  let params := set_if_str "query" query params in
  request self "GET" "/api/v1/research" None (Some params) true.


Definition get_classification_result (self : FortitudeClient)
    (classification_id : string) : M json :=
  request self "GET" ("/api/v1/classify/" +:+ classification_id) None None true.

Definition list_classification_results (self : FortitudeClient) (limit offset : Z)
    (category : option string) : M json :=
  let params := [("limit", JInt limit); ("offset", JInt offset)] in
  let params := set_if_str "category" category params in
  request self "GET" "/api/v1/classify" None (Some params) true.

Definition get_classification_types (self : FortitudeClient) : M json :=
  request self "GET" "/api/v1/classify/types" None None true.

Definition get_cache_stats (self : FortitudeClient) : M json :=
  request self "GET" "/api/v1/cache/stats" None None true.

(** [min_quality] is a [float], given by its [repr]; it is sent whenever it
    is not [None]. *)
Definition search_cache (self : FortitudeClient) (query : option string)
    (limit offset : Z) (sort : string) (research_type : option string)
    (min_quality : option string) : M json :=
  let params := [("limit", JInt limit); ("offset", JInt offset); ("sort", JStr sort)] in
  let params := set_if_str "query" query params in
  let params := set_if_str "research_type" research_type params in
  let params :=
    match min_quality with
    | Some q => alist_set "min_quality" (JFloat q) params
    | None => params
    end in
  request self "GET" "/api/v1/cache/search" None (Some params) true.

Definition get_cache_entry (self : FortitudeClient) (cache_id : string) : M json :=
  request self "GET" ("/api/v1/cache/" +:+ cache_id) None None true.

End Endpoints.

(** ** The text of an error *)

(** [repr(v)] and [str(v)] of a value. *)
Fixpoint py_repr_value (v : json) : string :=
  match v with
  | JNull => "None"
  | JBool true => "True"
  | JBool false => "False"
  | JInt n => pretty n
  | JFloat r => r
  | JStr s => py_repr s
  | JArr items => "[" +:+ join ", " (map py_repr_value items) +:+ "]"
  | JObj members =>
      "{" +:+ join ", " (map (λ kv, py_repr kv.1 +:+ ": " +:+ py_repr_value kv.2) members)
          +:+ "}"
  end.

Definition py_str (v : json) : string :=
  match v with
  | JStr s => s
  | _ => py_repr_value v
  end.

(** [FortitudeAPIError.__str__]:
    [f"FortitudeAPIError({self.status_code}): {self.error_code} - {self.message}"] *)
Definition FortitudeAPIError_str (e : FortitudeAPIError) : string :=
  "FortitudeAPIError("
  +:+ match status_code e with Some st => pretty st | None => "None" end
  +:+ "): " +:+ py_str (error_code e) +:+ " - " +:+ py_str (message e).


(** ** The performance harness *)

(** [PerformanceTestResults] *)
Record PerformanceTestResults : Type := {
  response_times : list Q;
  success_count : Z;
  error_count : Z;
  errors : list string;
  start_time : option Q;
  end_time : option Q
}.

(** [PerformanceTestResults.__init__] *)
Definition new_results : PerformanceTestResults :=
  {| response_times := []; success_count := 0; error_count := 0; errors := [];
     start_time := None; end_time := None |}.

(** [PerformanceTestResults.add_result] *)
Definition add_result (self : PerformanceTestResults) (response_time : Q)
    (success : bool) (error : option string) : PerformanceTestResults :=
  let times := response_times self ++ [response_time] in
  if success then
    {| response_times := times; success_count := success_count self + 1;
       error_count := error_count self; errors := errors self;
       start_time := start_time self; end_time := end_time self |}
  else
    {| response_times := times; success_count := success_count self;
       error_count := error_count self + 1;
       errors := match error with
                 | Some (String c s) => errors self ++ [String c s]
                 | _ => errors self
                 end;
       start_time := start_time self; end_time := end_time self |}.

(** The results after a series of [add_result] calls. *)
Definition add_results (self : PerformanceTestResults)
    (l : list (Q * bool * option string)) : PerformanceTestResults :=
  fold_left (λ acc x, add_result acc x.1.1 x.1.2 x.2) l self.

(** [error.split(':')[0]] *)
Fixpoint before_colon (s : string) : string :=
  match s with
  | EmptyString => EmptyString
  | String c s' => if Ascii.eqb c ":" then EmptyString else String c (before_colon s')
  end.

(** [error.split(':')[0] if ':' in error else error] *)
Definition error_type (error : string) : string :=
  if contains ":" error then before_colon error else error.

(** The error summary of [print_performance_report]: the first ten errors
    counted by type, in the order in which the types first occur. *)
Definition error_counts (errors : list string) : list (string * Z) :=
  fold_left
    (λ counts error,
       let t := error_type error in
       alist_set t (alist_get t counts 0 + 1) counts)
    (take 10 errors) [].

Section Harness.

Variable urljoin : string → string → string.
Variable transport : nat → http_request → exchange.
Variable json_error_is_request_exception : bool.


End Harness.

(** [setup_client] of the research examples, in an environment [env]. *)
Definition setup_client (env : string → option string) : res FortitudeClient :=
  FortitudeClient_init env
    (Some (getenv env "FORTITUDE_API_KEY" "your-api-key-here"))
    (Some (getenv env "FORTITUDE_BASE_URL" "http://localhost:8080"))
    None None true 300.

(** ** Sample inputs *)

(** A server that answers every dispatch with the same response. *)
Definition always (r : Response) : nat → http_request → exchange :=
  λ _ _, {| latency := 0; result := Responded r |}.

(** A response whose body is the JSON text of [v], and one whose body is
    not JSON. *)
Definition json_response (st : Z) (v : json) (m : option string) : Response :=
  {| status := st; text := dumps v; body := Decoded v; mimetype_error := m |}.

Definition garbled_response (st : Z) (txt : string) (m : option string) : Response :=
  {| status := st; text := txt; body := Undecodable "Expecting value";
     mimetype_error := m |}.

Definition healthy : Response :=
  json_response 200 (JObj [("status", JStr "healthy")]) None.

(** A server that is unavailable for the first [n] dispatches. *)
Definition recovering (n : nat) : nat → http_request → exchange :=
  λ i _, {| latency := 0;
            result := Responded (if (i <? n)%nat
                                 then garbled_response 503 "Service Unavailable" None
                                 else healthy) |}.

(** A connection that fails every time. *)
Definition unreachable : nat → http_request → exchange :=
  λ _ _, {| latency := 0; result := Failed "Connection refused" |}.

Definition sample_client (retries : Z) (caching : bool) : FortitudeClient :=
  {| api_key := "k"; base_url := "http://localhost:8080"; timeout := 30;
     max_retries := retries; enable_cache := caching; cache_ttl := 300 |}.

Definition initial : state :=
  {| _cache := ∅; now := 0; sent := 0; slept := [] |}.

(** [urljoin] on a base without a path and an absolute path. *)
Definition join_path (base endpoint : string) : string := base +:+ endpoint.

(** The same parameters, inserted in two orders. *)
Definition page_params : dict := [("offset", JInt 0); ("limit", JInt 20)].
Definition page_params' : dict := [("limit", JInt 20); ("offset", JInt 0)].

(** The state one hundred seconds after a first listing call. *)
Definition after_first_call : state :=
  let s := (_make_request join_path (always healthy) true (sample_client 3 true)
              "GET" "/api/v1/research" None (Some page_params) true initial).2 in
  {| _cache := _cache s; now := 100; sent := sent s; slept := slept s |}.

(** A state whose entry for [GET /health] is a thousand seconds old. *)
Definition stale : state :=
  {| _cache := {[ cache_key "GET" "http://localhost:8080/health" None
                  := {| data := JNull; timestamp := 0 |} ]};
     now := 1000; sent := 0; slept := [] |}.

(** A server that does not answer in time, as requests and as aiohttp
    report it; a library that refuses the timeout 0; a response without a
    body. *)
Definition slow_for_requests : nat → http_request → exchange :=
  λ _ _, {| latency := 30; result := Failed "Read timed out." |}.

Definition slow_for_aiohttp : nat → http_request → exchange :=
  λ _ _, {| latency := 30; result := Raised ForeignTimeoutError |}.

Definition refusing : nat → http_request → exchange :=
  λ _ _, {| latency := 0;
            result := Raised (ForeignValueError "Attempted to set connect timeout to 0, but the timeout cannot be set to a value less than or equal to 0.") |}.

Definition empty_response (st : Z) : Response :=
  {| status := st; text := EmptyString;
     body := Blank "Expecting value: line 1 column 1 (char 0)";
     mimetype_error := None |}.

(** An environment that sets the timeout only. *)
Definition sample_env (name : string) : option string :=
  if String.eqb name "FORTITUDE_TIMEOUT" then Some "45" else None.


(** An environment that sets nothing, one whose numbers are no numbers,
    and one that asks for 45 seconds and no retry. *)
Definition empty_env (name : string) : option string := None.

Definition noisy_env (name : string) : option string :=
  if String.eqb name "FORTITUDE_TIMEOUT" then Some "soon"
  else if String.eqb name "FORTITUDE_MAX_RETRIES" then Some "many"
  else None.

Definition numeric_env (name : string) : option string :=
  if String.eqb name "FORTITUDE_TIMEOUT" then Some "45"
  else if String.eqb name "FORTITUDE_MAX_RETRIES" then Some "0"
  else None.

(** * Properties *)

Example dumps_sorts :
  dumps (JObj [("offset", JInt 0); ("limit", JInt 20)])
  = "{" +:+ dquote +:+ "limit" +:+ dquote +:+ ": 20, "
        +:+ dquote +:+ "offset" +:+ dquote +:+ ": 0}".
Proof. vm_compute. reflexivity. Qed.

Example init_defaults :
  FortitudeClient_init (λ _, None) (Some "k") None None None false 300
  = Ret {| api_key := "k"; base_url := "http://localhost:8080"; timeout := 30;
           max_retries := 3; enable_cache := false; cache_ttl := 300 |}.
Proof. reflexivity. Qed.

(** Two 503 answers and then a 200: three dispatches, delays 1 and 2, and
    the result stored under the key of the request. *)
Example recovers_after_two :
  let out := _make_request join_path (recovering 2) true (sample_client 3 true)
               "GET" "/health" None None true initial in
  out.1 = Ret (JObj [("status", JStr "healthy")])
  ∧ sent out.2 = 3%nat ∧ slept out.2 = [1; 2]
  ∧ _cache out.2 !! cache_key "GET" "http://localhost:8080/health" None
    = Some {| data := JObj [("status", JStr "healthy")]; timestamp := 3 |}.
Proof. vm_compute. repeat split; reflexivity. Qed.

(** A connection that never comes up: four dispatches, delays 1, 2 and 4,
    and the error of the last failure. *)
Example gives_up :
  let out := _make_request join_path unreachable true (sample_client 3 false)
               "POST" "/api/v1/research" None None false initial in
  out.1 = Raise (ApiError (plain_error "Request failed: Connection refused"))
  ∧ sent out.2 = 4%nat ∧ slept out.2 = [1; 2; 4].
Proof. vm_compute. repeat split; reflexivity. Qed.

Lemma fresh_spec t ts ttl : fresh t ts ttl = true ↔ (t - ts < inject_Z ttl)%Q.
Proof.
  unfold fresh. rewrite negb_true_iff. split.
  - intros H. apply Qnot_le_lt. intros Hle.
    apply Qle_bool_iff in Hle. congruence.
  - intros H. destruct (Qle_bool (inject_Z ttl) (t - ts)) eqn:E; [|done].
    apply Qle_bool_iff in E. exfalso. eapply Qlt_not_le; eauto.
Qed.

Lemma fresh_false t ts ttl : fresh t ts ttl = false ↔ (inject_Z ttl <= t - ts)%Q.
Proof.
  unfold fresh. rewrite negb_false_iff. apply Qle_bool_iff.
Qed.

Section Proofs.

Variable urljoin : string → string → string.
Variable transport : nat → http_request → exchange.
Variable json_error_is_request_exception : bool.

Variable self : FortitudeClient.
Variables method url : string.
Variable payload : option json.
Variable params : option dict.
Variable use_cache : bool.
Variable key : string.

Let rq : http_request :=
  {| req_method := method; req_url := url; req_json := payload;
     req_params := params; req_timeout := timeout self |}.

Let cacheable : bool := use_cache && enable_cache self && String.eqb method "GET".

Let body_ : Z → M control :=
  attempt_body transport json_error_is_request_exception
    self method url payload params use_cache key.

Ltac run :=
  unfold body_, attempt_body, try_except, dispatch, mbind, M_bind, mret, M_ret,
    raise, time_sleep, time_time, cache_set, response_json, raise_from_body,
    raise_raw, is_RequestException, is_JSONDecodeError; simpl.

(** What one iteration does, by the outcome of its dispatch. *)
Lemma body_failed attempt s what :
  result (transport (sent s) rq) = Failed what →
  body_ attempt s =
    let s1 := after_dispatch (latency (transport (sent s) rq)) s in
    if attempt <? max_retries self then (Ret Continue, after_sleep (2 ^ attempt) s1)
    else (Raise (ApiError (plain_error ("Request failed: " +:+ what))), s1).
Proof.
  intros H. run. fold rq. rewrite H. simpl.
  destruct (attempt <? max_retries self); reflexivity.
Qed.

Lemma body_raised attempt s f :
  result (transport (sent s) rq) = Raised f →
  body_ attempt s =
    (Raise (raise_foreign f), after_dispatch (latency (transport (sent s) rq)) s).
Proof. intros H. run. fold rq. rewrite H. by destruct f. Qed.

Lemma body_ok attempt s r v :
  result (transport (sent s) rq) = Responded r →
  status r = 200 → body r = Decoded v →
  body_ attempt s =
    let s1 := after_dispatch (latency (transport (sent s) rq)) s in
    (Ret (Return v),
     if cacheable
     then {| _cache := <[key := {| data := v; timestamp := now s1 |}]> (_cache s1);
             now := now s1; sent := sent s1; slept := slept s1 |}
     else s1).
Proof.
  intros H H200 Hb. run. fold rq. rewrite H. simpl. rewrite H200. simpl.
  rewrite Hb. simpl. fold cacheable. destruct cacheable; reflexivity.
Qed.

Lemma body_ok_undecodable attempt s r why :
  result (transport (sent s) rq) = Responded r →
  status r = 200 → body r = Undecodable why →
  body_ attempt s =
    let s1 := after_dispatch (latency (transport (sent s) rq)) s in
    if json_error_is_request_exception then
      if attempt <? max_retries self then (Ret Continue, after_sleep (2 ^ attempt) s1)
      else (Raise (ApiError (plain_error ("Request failed: " +:+ why))), s1)
    else (Raise (JSONDecodeError why), s1).
Proof.
  intros H H200 Hb. run. fold rq. rewrite H. simpl. rewrite H200. simpl.
  rewrite Hb. simpl.
  destruct json_error_is_request_exception; [|reflexivity].
  destruct (attempt <? max_retries self); reflexivity.
Qed.

Lemma body_ok_blank attempt s r why :
  result (transport (sent s) rq) = Responded r →
  status r = 200 → body r = Blank why →
  body_ attempt s =
    let s1 := after_dispatch (latency (transport (sent s) rq)) s in
    if json_error_is_request_exception then
      if attempt <? max_retries self then (Ret Continue, after_sleep (2 ^ attempt) s1)
      else (Raise (ApiError (plain_error ("Request failed: " +:+ why))), s1)
    else (Raise (JSONDecodeError why), s1).
Proof.
  intros H H200 Hb. run. fold rq. rewrite H. simpl. rewrite H200. simpl.
  rewrite Hb. simpl.
  destruct json_error_is_request_exception; [|reflexivity].
  destruct (attempt <? max_retries self); reflexivity.
Qed.

Lemma body_retry attempt s r :
  result (transport (sent s) rq) = Responded r →
  status r ≠ 200 → transient (status r) = true → attempt < max_retries self →
  body_ attempt s =
    (Ret Continue,
     after_sleep (2 ^ attempt) (after_dispatch (latency (transport (sent s) rq)) s)).
Proof.
  intros H H200 Ht Ha. run. fold rq. rewrite H. simpl.
  apply Z.eqb_neq in H200. rewrite H200, Ht.
  apply Z.ltb_lt in Ha. rewrite Ha. reflexivity.
Qed.

Lemma body_error attempt s r :
  result (transport (sent s) rq) = Responded r →
  status r ≠ 200 → transient (status r) = false ∨ max_retries self ≤ attempt →
  body_ attempt s =
    (Raise (error_for r), after_dispatch (latency (transport (sent s) rq)) s).
Proof.
  intros H H200 Hstop. run. fold rq. rewrite H. simpl.
  apply Z.eqb_neq in H200. rewrite H200.
  assert ((if transient (status r)
           then if attempt <? max_retries self then true else false
           else false) = false) as Hno.
  { destruct Hstop as [-> | Hge]; [done|].
    apply Z.ltb_ge in Hge. rewrite Hge. by destruct (transient _). }
  unfold error_for.
  destruct (transient (status r)); [destruct (attempt <? max_retries self); [done|]|];
    simpl; destruct (body r) as [[]| |]; reflexivity.
Qed.

Lemma request_failed_not_exceeded what :
  ApiError (plain_error ("Request failed: " +:+ what)) ≠ max_retries_exceeded.
Proof. unfold max_retries_exceeded, plain_error, String.app. simpl. congruence. Qed.

Lemma error_for_not_exceeded r : error_for r ≠ max_retries_exceeded.
Proof.
  unfold error_for, max_retries_exceeded, plain_error.
  destruct (body r) as [[]| |]; congruence.
Qed.

Lemma body_cases attempt s :
  body_step transport json_error_is_request_exception self rq cacheable key attempt s
    (body_ attempt s).1 (body_ attempt s).2.
Proof.
  destruct (result (transport (sent s) rq)) as [what|f|r] eqn:Hx.
  - rewrite (body_failed _ _ _ Hx). simpl.
    destruct (attempt <? max_retries self) eqn:Ha; simpl.
    + apply step_continue; [by apply Z.ltb_lt | by rewrite Hx].
    + apply step_raise; [apply request_failed_not_exceeded | | congruence].
      intros _. by apply Z.ltb_ge.
  - rewrite (body_raised _ _ _ Hx). simpl.
    apply step_raise; [by destruct f | | congruence].
    rewrite Hx. simpl. congruence.
  - destruct (decide (status r = 200)) as [H200|H200].
    + destruct (body r) as [v|why|why] eqn:Hb.
      * rewrite (body_ok _ _ _ _ Hx H200 Hb). simpl. by eapply step_return.
      * rewrite (body_ok_undecodable _ _ _ _ Hx H200 Hb). simpl.
        destruct json_error_is_request_exception eqn:Hflag;
          [destruct (attempt <? max_retries self) eqn:Ha|]; simpl.
        -- apply step_continue; [by apply Z.ltb_lt|].
           rewrite Hx. simpl. by rewrite H200, Hb.
        -- apply step_raise; [apply request_failed_not_exceeded | | congruence].
           intros _. by apply Z.ltb_ge.
        -- apply step_raise; [by unfold max_retries_exceeded | | congruence].
           rewrite Hx. simpl. rewrite H200, Hb. simpl. congruence.
      * rewrite (body_ok_blank _ _ _ _ Hx H200 Hb). simpl.
        destruct json_error_is_request_exception eqn:Hflag;
          [destruct (attempt <? max_retries self) eqn:Ha|]; simpl.
        -- apply step_continue; [by apply Z.ltb_lt|].
           rewrite Hx. simpl. by rewrite H200, Hb.
        -- apply step_raise; [apply request_failed_not_exceeded | | congruence].
           intros _. by apply Z.ltb_ge.
        -- apply step_raise; [by unfold max_retries_exceeded | | congruence].
           rewrite Hx. simpl. rewrite H200, Hb. simpl. congruence.
    + destruct (transient (status r)) eqn:Ht;
        [destruct (decide (attempt < max_retries self)) as [Ha|Ha]|].
      * rewrite (body_retry _ _ _ Hx H200 Ht Ha). simpl.
        apply step_continue; [done|]. rewrite Hx. simpl.
        apply Z.eqb_neq in H200. by rewrite H200.
      * rewrite (body_error _ _ _ Hx H200) by (right; lia). simpl.
        apply step_raise; [apply error_for_not_exceeded | intros _; lia | congruence].
      * rewrite (body_error _ _ _ Hx H200) by (by left). simpl.
        apply step_raise; [apply error_for_not_exceeded | | congruence].
        rewrite Hx. simpl. apply Z.eqb_neq in H200. rewrite H200, Ht. done.
Qed.

Lemma for_attempts_cons (b : Z → M control) attempt rest s :
  for_attempts b (attempt :: rest) s =
    match b attempt s with
    | (Ret (Return v), s') => (Ret (Some v), s')
    | (Ret Continue, s') => for_attempts b rest s'
    | (Raise e, s') => (Raise e, s')
    end.
Proof.
  simpl. unfold mbind, M_bind. destruct (b attempt s) as [[[v|]|e] s']; reflexivity.
Qed.

Let run := loop_run transport json_error_is_request_exception self rq cacheable key.
Let pow2 : Z → Z := Z.pow 2.

(** The loop of the code follows the relation. *)
Lemma for_attempts_run l s :
  run l s (for_attempts body_ l s).1 (for_attempts body_ l s).2.
Proof.
  revert s. induction l as [|a l IH]; intros s.
  - apply run_out.
  - rewrite for_attempts_cons.
    pose proof (body_cases a s) as Hstep.
    destruct (body_ a s) as [[[v|]|e] s1]; simpl in *.
    + by eapply run_return.
    + eapply run_continue; [exact Hstep | apply IH].
    + by eapply run_raise.
Qed.

Lemma step_sent a s r s' :
  body_step transport json_error_is_request_exception self rq cacheable key a s r s' →
  sent s' = S (sent s).
Proof. intros H. inversion H; subst; simpl; by destruct cacheable. Qed.

Lemma step_stop_slept a s r s' :
  body_step transport json_error_is_request_exception self rq cacheable key a s r s' →
  r ≠ Ret Continue → slept s' = slept s.
Proof. intros H Hr. inversion H; subst; simpl; [done| |done]. by destruct cacheable. Qed.

(** Dispatches: one per iteration entered. *)
Lemma run_sent l s r s' :
  run l s r s' → (sent s ≤ sent s' ≤ sent s + length l)%nat.
Proof.
  induction 1 as [s|a l s s1 r s' Hstep _ IH|a l s v s1 Hstep|a l s e s1 Hstep];
    try apply step_sent in Hstep; simpl; lia.
Qed.

(** Running out of attempts: every attempt was below [max_retries]. *)
Lemma run_out_inv l s s' :
  run l s (Ret None) s' →
  Forall (λ a, a < max_retries self) l ∧ sent s' = (sent s + length l)%nat
  ∧ slept s' = slept s ++ (pow2 <$> l) ∧ _cache s' = _cache s.
Proof.
  intros H. remember (Ret None) as r eqn:Hr.
  induction H as [s|a l s s1 r s' Hstep _ IH|a l s v s1 Hstep|a l s e s1 Hstep];
    try discriminate.
  - simpl. rewrite app_nil_r. repeat split; [constructor | lia].
  - destruct (IH Hr) as (Hall & Hsent & Hslept & Hcache).
    inversion Hstep; subst; simpl in *.
    repeat split; [by constructor | lia | by rewrite Hslept, <-app_assoc | done].
Qed.

(** Ending by [return] or by an exception: the sleeps are those of the
    iterations before the last. *)
Lemma run_stop_inv l s r s' :
  run l s r s' → r ≠ Ret None →
  (sent s < sent s')%nat
  ∧ slept s' = slept s ++ (pow2 <$> take (sent s' - sent s - 1) l).
Proof.
  induction 1 as [s|a l s s1 r s' Hstep _ IH|a l s v s1 Hstep|a l s e s1 Hstep];
    intros Hr; try done.
  - destruct (IH Hr) as (Hlt & Hslept).
    inversion Hstep; subst; simpl in *.
    split; [lia|].
    replace (sent s' - sent s - 1)%nat with (S (sent s' - S (sent s) - 1)) by lia.
    simpl. by rewrite Hslept, <-app_assoc.
  - pose proof (step_sent _ _ _ _ Hstep) as Hs.
    rewrite (step_stop_slept _ _ _ _ Hstep) by done.
    split; [lia|].
    replace (sent s1 - sent s - 1)%nat with 0%nat by lia.
    simpl. by rewrite app_nil_r.
  - pose proof (step_sent _ _ _ _ Hstep) as Hs.
    rewrite (step_stop_slept _ _ _ _ Hstep) by done.
    split; [lia|].
    replace (sent s1 - sent s - 1)%nat with 0%nat by lia.
    simpl. by rewrite app_nil_r.
Qed.

(** The loop itself never raises the error of the line after it. *)
Lemma run_not_exceeded l s r s' :
  run l s r s' → r ≠ Raise max_retries_exceeded.
Proof.
  induction 1 as [s|a l s s1 r s' Hstep _ IH|a l s v s1 Hstep|a l s e s1 Hstep];
    try done.
  inversion Hstep; subst. congruence.
Qed.

(** What the loop leaves in the cache. *)
Lemma run_cache l s r s' :
  run l s r s' →
  match r with
  | Ret (Some v) =>
      ∃ t, _cache s' =
           if cacheable then <[key := {| data := v; timestamp := t |}]> (_cache s)
           else _cache s
  | _ => _cache s' = _cache s
  end.
Proof.
  induction 1 as [s|a l s s1 r s' Hstep _ IH|a l s v s1 Hstep|a l s e s1 Hstep].
  - done.
  - inversion Hstep; subst; simpl in *. exact IH.
  - inversion Hstep; subst; simpl in *.
    eexists. destruct cacheable; reflexivity.
  - inversion Hstep; subst; simpl in *. done.
Qed.

(** A response that is neither a success nor transient ends the loop. *)
Lemma run_terminal l s r s' j r0 :
  run l s r s' →
  (sent s ≤ j < sent s')%nat →
  result (transport j rq) = Responded r0 →
  status r0 ≠ 200 → transient (status r0) = false →
  S j = sent s' ∧ r = Raise (error_for r0).
Proof.
  intros H. revert j.
  induction H as [s|a l s s1 r s' Hstep _ IH|a l s v s1 Hstep|a l s e s1 Hstep];
    intros j Hj Hx H200 Ht.
  - lia.
  - inversion Hstep as [Ha Hretry| |]; subst.
    destruct (decide (j = sent s)) as [->|Hne].
    + rewrite Hx in Hretry. simpl in Hretry.
      apply Z.eqb_neq in H200. rewrite H200 in Hretry. congruence.
    + apply IH; [simpl; lia|done..].
  - pose proof (step_sent _ _ _ _ Hstep) as Hs.
    inversion Hstep as [|r1 v1 Hx1 H1 Hb1|]; subst.
    assert (j = sent s) as -> by lia. congruence.
  - pose proof (step_sent _ _ _ _ Hstep) as Hs.
    inversion Hstep as [| |e1 Hne Hmax Herr]; subst.
    assert (j = sent s) as -> by (simpl in *; lia).
    split; [done|]. f_equal. by apply Herr.
Qed.

End Proofs.

Lemma take_seqZ m n k : Z.of_nat k ≤ n → take k (seqZ m n) = seqZ m (Z.of_nat k).
Proof.
  intros Hk. replace n with (Z.of_nat k + (n - Z.of_nat k)) by lia.
  rewrite seqZ_app by lia. apply take_app_length'.
  rewrite length_seqZ. lia.
Qed.

Section Calls.

Variable urljoin : string → string → string.
Variable transport : nat → http_request → exchange.
Variable json_error_is_request_exception : bool.

Let call := _make_request urljoin transport json_error_is_request_exception.

Section OneCall.

Variable self : FortitudeClient.
Variables method endpoint : string.
Variable payload : option json.
Variable params : option dict.
Variable use_cache : bool.

Let url := urljoin (base_url self) endpoint.
Let key := cache_key method url params.
Let rq : http_request :=
  {| req_method := method; req_url := url; req_json := payload;
     req_params := params; req_timeout := timeout self |}.
Let cacheable : bool := use_cache && enable_cache self && String.eqb method "GET".
Let loop :=
  for_attempts
    (attempt_body transport json_error_is_request_exception
       self method url payload params use_cache key)
    (range (max_retries self + 1)).

(** The cache check reads the state and leaves it as it is. *)
Lemma cache_check_cases s :
  (cache_check self method key use_cache s = (Ret None, s)
   ∧ (cacheable = false ∨ _cache s !! key = None
      ∨ ∃ e, _cache s !! key = Some e
             ∧ fresh (now s) (timestamp e) (cache_ttl self) = false))
  ∨ (∃ e, cache_check self method key use_cache s = (Ret (Some (data e)), s)
          ∧ cacheable = true ∧ _cache s !! key = Some e
          ∧ fresh (now s) (timestamp e) (cache_ttl self) = true).
Proof.
  unfold cache_check. fold cacheable.
  destruct cacheable; [|left; split; [done|by left]].
  unfold mbind, M_bind, cache_get, time_time, mret, M_ret. simpl.
  destruct (_cache s !! key) as [e|] eqn:He; [|left; split; [done|right; by left]].
  simpl. destruct (fresh (now s) (timestamp e) (cache_ttl self)) eqn:Hf.
  - right. exists e. done.
  - left. split; [done|]. right. right. by exists e.
Qed.

Lemma call_unfold s :
  call self method endpoint payload params use_cache s =
    match cache_check self method key use_cache s with
    | (Ret (Some cached), s') => (Ret cached, s')
    | (Ret None, s') =>
        match loop s' with
        | (Ret (Some v), s'') => (Ret v, s'')
        | (Ret None, s'') => (Raise max_retries_exceeded, s'')
        | (Raise e, s'') => (Raise e, s'')
        end
    | (Raise e, s') => (Raise e, s')
    end.
Proof.
  unfold call, _make_request. fold url. fold key. fold loop.
  unfold mbind, M_bind.
  destruct (cache_check self method key use_cache s) as [[[cached|]|e] s']; try done.
  destruct (loop s') as [[[v|]|e] s'']; done.
Qed.

Lemma loop_run_spec s :
  loop_run transport json_error_is_request_exception self rq cacheable key
    (range (max_retries self + 1)) s (loop s).1 (loop s).2.
Proof. apply for_attempts_run. Qed.

(** With a retry count that is not negative the loop cannot run out. *)
Lemma loop_never_runs_out s :
  0 ≤ max_retries self → (loop s).1 ≠ Ret None.
Proof.
  intros Hmax Hnone. pose proof (loop_run_spec s) as Hrun.
  rewrite Hnone in Hrun. apply run_out_inv in Hrun as (Hall & _).
  rewrite Forall_forall in Hall.
  specialize (Hall (max_retries self)).
  unfold range in Hall. rewrite elem_of_seqZ in Hall. lia.
Qed.

(** The number of dispatches of a call is at most the length of the range. *)
Lemma call_sent s :
  let s' := (call self method endpoint payload params use_cache s).2 in
  (sent s ≤ sent s' ≤ sent s + Z.to_nat (max_retries self + 1))%nat.
Proof.
  simpl. rewrite call_unfold.
  destruct (cache_check_cases s) as [[-> _]|(e & -> & _)]; [|simpl; lia].
  pose proof (loop_run_spec s) as Hrun. apply run_sent in Hrun.
  unfold range in Hrun. rewrite length_seqZ in Hrun.
  destruct (loop s) as [[[v|]|err] s'']; simpl in *; lia.
Qed.

(** C1. A single call of [FortitudeClient._make_request] dispatches to the
    session at most [max_retries + 1] times, whatever the request and
    whatever the outcomes of the dispatches ([max_retries] being a count,
    that is, not negative). *)
Theorem make_request_attempts_bounded s :
  0 ≤ max_retries self →
  0 ≤ dispatched s (call self method endpoint payload params use_cache s).2
    ≤ max_retries self + 1.
Proof.
  intros Hmax. pose proof (call_sent s) as Hsent. simpl in Hsent.
  unfold dispatched. lia.
Qed.

(** The delays of a call, by the number of its dispatches. *)
Lemma call_delays s :
  let s' := (call self method endpoint payload params use_cache s).2 in
  slept s' = slept s ++ (Z.pow 2 <$> seqZ 0 (dispatched s s' - 1)).
Proof.
  unfold dispatched. simpl. rewrite call_unfold.
  destruct (cache_check_cases s) as [[-> _]|(e & -> & _)].
  - pose proof (loop_run_spec s) as Hrun.
    destruct (loop s) as [r s''] eqn:Hloop. simpl in Hrun.
    assert (slept s'' = slept s
            ++ (Z.pow 2 <$> seqZ 0 (Z.of_nat (sent s'') - Z.of_nat (sent s) - 1)))
      as Hgoal.
    { assert (r = Ret None ∨ r ≠ Ret None) as [->|Hr]
        by (destruct r as [[?|]|?]; [right|left|right]; done).
      - apply run_out_inv in Hrun as (Hall & Hsent & Hslept & _).
        destruct (decide (0 ≤ max_retries self)) as [Hmax|Hmax].
        + exfalso. rewrite Forall_forall in Hall.
          specialize (Hall (max_retries self)).
          unfold range in Hall. rewrite elem_of_seqZ in Hall. lia.
        + unfold range in *. rewrite seqZ_nil in Hsent, Hslept by lia.
          simpl in *. rewrite Hslept. f_equal.
          rewrite seqZ_nil by lia. done.
      - pose proof (run_sent _ _ _ _ _ _ _ _ _ _ _ _ _ Hrun) as Hbound.
        apply run_stop_inv in Hrun as (Hlt & Hslept); [|done].
        unfold range in *. rewrite length_seqZ in Hbound.
        rewrite Hslept, take_seqZ by lia.
        do 3 f_equal. lia. }
    destruct r as [[v|]|err]; simpl; exact Hgoal.
  - simpl. rewrite seqZ_nil by lia. simpl. by rewrite app_nil_r.
Qed.

(** C4. The delays slept during a call are [2^0, 2^1, ..., 2^(k-1)], in
    this order, where [k] is the number of retries (dispatches after the
    first): the retry that follows attempt [i] waits [2^i] time units,
    whether it answers a transient status or a transport failure. *)
Theorem make_request_backoff_delays s :
  let s' := (call self method endpoint payload params use_cache s).2 in
  slept s' = slept s ++ (Z.pow 2 <$> seqZ 0 (dispatched s s' - 1)).
Proof. apply call_delays. Qed.

(** C10. With [max_retries >= 0] the loop never runs out of attempts: its
    last iteration (attempt [max_retries]) cannot end in [continue], so the
    loop ends by [return] or by an exception, and the call never raises
    the [FortitudeAPIError("Max retries exceeded")] that follows the loop. *)
Theorem trailing_raise_unreachable s :
  0 ≤ max_retries self →
  (attempt_body transport json_error_is_request_exception
     self method url payload params use_cache key (max_retries self) s).1
    ≠ Ret Continue
  ∧ (loop s).1 ≠ Ret None
  ∧ (call self method endpoint payload params use_cache s).1
    ≠ Raise max_retries_exceeded.
Proof.
  intros Hmax. split; [|split].
  - intros Hc.
    pose proof (body_cases transport json_error_is_request_exception
                  self method url payload params use_cache key
                  (max_retries self) s) as Hstep.
    rewrite Hc in Hstep. inversion Hstep. lia.
  - by apply loop_never_runs_out.
  - rewrite call_unfold.
    destruct (cache_check_cases s) as [[-> _]|(e & -> & _)]; [|done].
    pose proof (loop_run_spec s) as Hrun.
    pose proof (loop_never_runs_out s Hmax) as Hnone.
    apply run_not_exceeded in Hrun.
    destruct (loop s) as [[[v|]|err] s'']; simpl in *; congruence.
Qed.

(** C5. A response whose status is neither 2xx nor one of 429, 500, 502,
    503, 504 ends the call at once: the dispatch that brought it is the
    last one, nothing is slept after it, and the call raises a
    [FortitudeAPIError] with the status of the response. When the body
    decodes to an object, [message], [error_code], [request_id] and
    [details] are those of the body ([message] being "Unknown error" when
    the body has none, the others [None]); when the body does not decode,
    the message is "HTTP <status>: <text>" and the other fields are [None]. *)
Theorem non_retryable_status_surfaces s j r :
  let out := call self method endpoint payload params use_cache s in
  (sent s ≤ j < sent out.2)%nat →
  result (transport j rq) = Responded r →
  ¬ (200 ≤ status r < 300) → transient (status r) = false →
  sent out.2 = S j
  ∧ slept out.2 = slept s ++ (Z.pow 2 <$> seqZ 0 (Z.of_nat j - Z.of_nat (sent s)))
  ∧ (∀ d, body r = Decoded (JObj d) →
          out.1 = Raise (ApiError
                    {| message := dict_get "message" d (JStr "Unknown error");
                       error_code := dict_get "error_code" d JNull;
                       status_code := Some (status r);
                       request_id := dict_get "request_id" d JNull;
                       details := dict_get "details" d JNull |}))
  ∧ (∀ why, body r = Undecodable why ∨ body r = Blank why →
            out.1 = Raise (ApiError
                      {| message := JStr ("HTTP " +:+ pretty (status r) +:+ ": " +:+ text r);
                         error_code := JNull;
                         status_code := Some (status r);
                         request_id := JNull;
                         details := JNull |})).
Proof.
  simpl. intros Hj Hx H2xx Ht.
  pose proof (call_delays s) as Hdelays. unfold dispatched in Hdelays.
  simpl in Hdelays.
  revert Hj Hdelays. rewrite call_unfold.
  destruct (cache_check_cases s) as [[-> _]|(e & -> & _)]; [|simpl; lia].
  pose proof (loop_run_spec s) as Hrun.
  destruct (loop s) as [res s''] eqn:Hloop. simpl in Hrun.
  intros Hj Hdelays.
  assert (sent s'' = S j ∧ res = Raise (error_for r)) as [Hlast ->].
  { assert ((sent s ≤ j < sent s'')%nat) as Hj'
      by (destruct res as [[?|]|?]; exact Hj).
    destruct (run_terminal _ _ _ _ _ _ _ _ _ _ _ _ _ _ _ Hrun Hj' Hx) as [? ?];
      [lia|done|]. split; [lia|done]. }
  simpl in *. split; [done|]. split.
  - rewrite Hdelays, Hlast. do 3 f_equal. lia.
  - unfold error_for. split; [intros ? ->|intros ? [->| ->]]; reflexivity.
Qed.

(** When every dispatch is answered with a transient status, the loop
    goes through all its attempts and raises the error of the last answer. *)
Lemma loop_all_transient n :
  (∀ i, ∃ r, result (transport i rq) = Responded r
             ∧ status r ≠ 200 ∧ transient (status r) = true) →
  ∀ a s, a + Z.of_nat n = max_retries self →
  ∃ last s',
    result (transport (sent s + n) rq) = Responded last
    ∧ for_attempts
        (attempt_body transport json_error_is_request_exception
           self method url payload params use_cache key)
        (seqZ a (Z.of_nat (S n))) s = (Raise (error_for last), s')
    ∧ sent s' = (sent s + S n)%nat.
Proof.
  intros Hall. induction n as [|n IH]; intros a s Ha.
  - destruct (Hall (sent s)) as (r & Hx & H200 & Ht).
    exists r. eexists. rewrite Nat.add_0_r. split; [done|].
    rewrite seqZ_cons, seqZ_nil by lia.
    rewrite for_attempts_cons, (body_error _ _ _ _ _ _ _ _ _ _ _ _ Hx H200)
      by (right; lia).
    split; [reflexivity|simpl; lia].
  - destruct (Hall (sent s)) as (r & Hx & H200 & Ht).
    rewrite seqZ_cons by lia.
    rewrite for_attempts_cons, (body_retry _ _ _ _ _ _ _ _ _ _ _ _ Hx H200 Ht)
      by lia.
    set (s1 := after_sleep _ _).
    destruct (IH (Z.succ a) s1) as (last & s' & Hlast & Hrun & Hsent); [lia|].
    exists last, s'. subst s1. simpl in *.
    replace (sent s + S n)%nat with (S (sent s + n)) by lia.
    split; [done|]. split; [|lia].
    replace (Z.pred (Z.of_nat (S (S n)))) with (Z.of_nat (S n)) by lia. done.
Qed.

(** Whether the error branch raises a [FortitudeAPIError] for this body. *)
Lemma error_for_api_error r :
  match body r with
  | Decoded (JObj _) | Undecodable _ | Blank _ => True
  | Decoded _ => False
  end →
  ∃ e, error_for r = ApiError e ∧ status_code e = Some (status r).
Proof.
  unfold error_for. destruct (body r) as [[]| |]; try done; intros _; eexists; done.
Qed.

(** When every dispatch of a call that is not served from the cache is
    answered with status 500, the call makes exactly [max_retries + 1]
    dispatches and then raises the error built from the last answer: a
    [FortitudeAPIError] with status code 500, provided the body of that
    answer decodes to an object or does not decode. *)
Lemma persistent_server_error s :
  0 ≤ max_retries self →
  (cache_check self method key use_cache s).1 = Ret None →
  (∀ i, ∃ r, result (transport i rq) = Responded r ∧ status r = 500) →
  (∀ r, result (transport (sent s + Z.to_nat (max_retries self)) rq) = Responded r →
        match body r with
        | Decoded (JObj _) | Undecodable _ | Blank _ => True
        | Decoded _ => False
        end) →
  let out := call self method endpoint payload params use_cache s in
  dispatched s out.2 = max_retries self + 1
  ∧ ∃ last e,
      result (transport (sent out.2 - 1) rq) = Responded last
      ∧ out.1 = Raise (ApiError e)
      ∧ ApiError e = error_for last
      ∧ status_code e = Some 500.
Proof.
  simpl. intros Hmax Hmiss H500 Hshape. rewrite call_unfold.
  destruct (cache_check_cases s) as [[Hcheck _]|(e & Hcheck & _)];
    rewrite Hcheck in *; [|done].
  destruct (loop_all_transient (Z.to_nat (max_retries self))) with (a := 0) (s := s)
    as (last & s' & Hlast & Hrun & Hsent); [|lia|].
  { intros i. destruct (H500 i) as (r & Hx & Hst). exists r.
    rewrite Hst. done. }
  replace (Z.of_nat (S (Z.to_nat (max_retries self)))) with (max_retries self + 1)
    in Hrun by lia.
  fold (range (max_retries self + 1)) in Hrun. fold loop in Hrun.
  rewrite Hrun. simpl. split; [unfold dispatched; lia|].
  destruct (error_for_api_error last) as (e & He & Hst); [by apply Hshape|].
  exists last, e. rewrite Hsent.
  replace (sent s + S (Z.to_nat (max_retries self)) - 1)%nat
    with (sent s + Z.to_nat (max_retries self))%nat by lia.
  destruct (H500 (sent s + Z.to_nat (max_retries self))%nat) as (r & Hx & H5).
  rewrite Hx in Hlast. injection Hlast as ->.
  rewrite He, Hst, H5. done.
Qed.

(** C6. A cacheable GET issued when the entry under its key is at least
    [cache_ttl] old is not served from the cache: the check reports a miss
    and leaves the state, the stored entry included, as it is; the call
    then dispatches afresh, and the map changes only if that succeeds, by
    the new entry taking the place of the old one. *)
Theorem expired_entry_refetched s e :
  use_cache = true → enable_cache self = true → method = "GET" →
  0 ≤ max_retries self →
  _cache s !! key = Some e →
  (inject_Z (cache_ttl self) <= now s - timestamp e)%Q →
  let out := call self method endpoint payload params use_cache s in
  cache_check self method key use_cache s = (Ret None, s)
  ∧ (sent s < sent out.2)%nat
  ∧ match out.1 with
    | Ret v => ∃ t, _cache out.2 = <[key := {| data := v; timestamp := t |}]> (_cache s)
    | Raise _ => _cache out.2 = _cache s
    end.
Proof.
  simpl. intros Huse Hen Hget Hmax He Hold. rewrite call_unfold.
  assert (cacheable = true) as Hc.
  { unfold cacheable. rewrite Huse, Hen, Hget. done. }
  destruct (cache_check_cases s) as [[Hcheck _]|(e' & _ & _ & He' & Hfresh)].
  - rewrite Hcheck. split; [done|].
    pose proof (loop_run_spec s) as Hrun.
    pose proof (loop_never_runs_out s Hmax) as Hnone.
    pose proof (run_stop_inv _ _ _ _ _ _ _ _ _ _ _ _ _ Hrun Hnone) as [Hlt _].
    pose proof (run_cache _ _ _ _ _ _ _ _ _ _ _ _ _ Hrun) as Hcache.
    destruct (loop s) as [[[v|]|err] s'']; simpl in *; [|done|done].
    fold cacheable in Hcache. rewrite Hc in Hcache. done.
  - exfalso. rewrite He in He'. injection He' as <-.
    apply fresh_false in Hold. congruence.
Qed.

End OneCall.

(** After a cacheable GET has returned [v], the entry under its key holds [v]. *)
Lemma cached_after_success self method endpoint payload params s v :
  let key := cache_key method (urljoin (base_url self) endpoint) params in
  let out := call self method endpoint payload params true s in
  enable_cache self = true → method = "GET" →
  out.1 = Ret v →
  ∃ e, _cache out.2 !! key = Some e ∧ data e = v.
Proof.
  simpl. intros Hen ->. rewrite call_unfold.
  destruct (cache_check_cases self "GET" endpoint params true s)
    as [[-> _]|(e & -> & _ & He & _)].
  - pose proof (loop_run_spec self "GET" endpoint payload params true s) as Hrun.
    apply run_cache in Hrun.
    destruct (for_attempts _ _ s) as [[[v'|]|err] s'']; simpl in *; try done.
    intros [= ->]. destruct Hrun as [t Hcache].
    rewrite Hen in Hcache. simpl in Hcache.
    rewrite Hcache. eexists. rewrite lookup_insert_eq. done.
  - simpl. intros [= <-]. by exists e.
Qed.

(** C3. After a cacheable GET has succeeded, a second call with the same
    method, URL and canonical parameters, made while the entry that the
    first call left under the key is younger than [cache_ttl], returns the
    result of the first call and leaves the state untouched: no dispatch
    is made. *)
Theorem cached_result_served self method endpoint payload1 params1
    payload2 params2 s1 s2 v :
  let key := cache_key method (urljoin (base_url self) endpoint) params1 in
  let first := call self method endpoint payload1 params1 true s1 in
  enable_cache self = true → method = "GET" →
  dumps (JObj (params_or_empty params2)) = dumps (JObj (params_or_empty params1)) →
  first.1 = Ret v →
  _cache s2 !! key = _cache first.2 !! key →
  (∀ e, _cache s2 !! key = Some e →
        (now s2 - timestamp e < inject_Z (cache_ttl self))%Q) →
  call self method endpoint payload2 params2 true s2 = (Ret v, s2).
Proof.
  cbv zeta. intros Hen Hget Hparams Hfirst Hsame Hyoung.
  destruct (cached_after_success self method endpoint payload1 params1 s1 v)
    as (e & He & Hdata); [done..|].
  rewrite He in Hsame.
  assert (cache_key method (urljoin (base_url self) endpoint) params2
          = cache_key method (urljoin (base_url self) endpoint) params1) as Hkey.
  { unfold cache_key. by rewrite Hparams. }
  rewrite call_unfold.
  destruct (cache_check_cases self method endpoint params2 true s2)
    as [[_ Hmiss]|(e' & -> & _ & He' & _)].
  - exfalso. rewrite Hkey in Hmiss.
    destruct Hmiss as [Hc|[Hnone|(e' & He' & Hstale)]].
    + rewrite Hen, Hget in Hc. done.
    + congruence.
    + apply Hyoung in He'. apply fresh_spec in He'. congruence.
  - rewrite Hkey in He'. simpl. congruence.
Qed.

End Calls.

(** ** The cache key *)

(** Induction on values that reaches the members of lists and dictionaries. *)
Lemma json_nested_ind (P : json → Prop) :
  P JNull → (∀ b, P (JBool b)) → (∀ n, P (JInt n)) → (∀ r, P (JFloat r)) →
  (∀ s, P (JStr s)) →
  (∀ items, Forall P items → P (JArr items)) →
  (∀ members, Forall (λ kv, P kv.2) members → P (JObj members)) →
  ∀ v, P v.
Proof.
  intros Hnull Hbool Hint Hfloat Hstr Harr Hobj.
  fix IH 1. intros [|b|n|r|s|items|members].
  - exact Hnull.
  - apply Hbool.
  - apply Hint.
  - apply Hfloat.
  - apply Hstr.
  - apply Harr. induction items as [|x items IHl]; constructor;
      [apply IH | apply IHl].
  - apply Hobj. induction members as [|[k x] members IHl]; constructor;
      [apply IH | apply IHl].
Qed.

Global Instance key_le_trans : Transitive key_le.
Proof. intros a b c. unfold key_le. apply transitivity. Qed.

Global Instance key_le_total : Total key_le.
Proof. intros a b. unfold key_le. apply total, _. Qed.

Lemma dict_lookup_elem k (d : dict) v : dict_lookup k d = Some v → (k, v) ∈ d.
Proof.
  induction d as [|[k' v'] d IH]; simpl; [done|].
  destruct (String.eqb_spec k' k) as [->|Hne].
  - intros [= ->]. left.
  - intros H. right. by apply IH.
Qed.

Lemma unique_item {A} (l : list (string * A)) k a b :
  NoDup l.*1 → (k, a) ∈ l → (k, b) ∈ l → a = b.
Proof.
  induction l as [|[k' x] l IH]; simpl; intros Hnd Ha Hb.
  - by apply elem_of_nil in Ha.
  - apply NoDup_cons in Hnd as [Hnotin Hnd].
    apply elem_of_cons in Ha as [Ha|Ha]; apply elem_of_cons in Hb as [Hb|Hb];
      simplify_eq.
    + done.
    + exfalso. apply Hnotin. apply list_elem_of_fmap.
      eexists (_, _). split; [|exact Hb]. done.
    + exfalso. apply Hnotin. apply list_elem_of_fmap.
      eexists (_, _). split; [|exact Ha]. done.
    + by apply IH.
Qed.

(** Sorting by key does not depend on the order of the items. *)
Lemma sort_items_unique (e1 e2 : list (string * string)) :
  NoDup e2.*1 → e1 ≡ₚ e2 → merge_sort key_le e1 = merge_sort key_le e2.
Proof.
  intros Hnd Hperm.
  apply (Sorted_unique_strong key_le).
  - intros [k1 x1] [k2 x2] H1 H2 Hle Hge.
    rewrite merge_sort_Permutation in H1, H2. rewrite Hperm in H1.
    unfold key_le in *. simpl in *.
    assert (k1 = k2) as -> by (by apply (anti_symm String.le)).
    f_equal. by eapply unique_item.
  - apply Sorted_merge_sort, _.
  - apply Sorted_merge_sort, _.
  - by rewrite !merge_sort_Permutation.
Qed.

(** The text of a value does not depend on the insertion order of the
    keys of the dictionaries in it. *)
Lemma dumps_canonical v1 :
  ∀ v2, proper v1 → proper v2 → same_value v1 v2 → dumps v1 = dumps v2.
Proof.
  induction v1 as [| | | | |items IH|members IH] using json_nested_ind;
    intros v2 Hp1 Hp2 Hsame; inversion Hsame; subst; try reflexivity.
  - (* lists *)
    inversion Hp1 as [| | | | |? Hall1|]; inversion Hp2 as [| | | | |? Hall2|]; subst.
    simpl. do 3 f_equal.
    match goal with H : Forall2 same_value _ _ |- _ => rename H into Hall end.
    clear Hsame Hp1 Hp2.
    induction Hall as [|x y l1 l2 Hxy Hall IHl]; [done|].
    apply Forall_cons in IH as [IHx IH].
    apply Forall_cons in Hall1 as [Hx Hall1].
    apply Forall_cons in Hall2 as [Hy Hall2].
    simpl. f_equal; [by apply IHx | by apply IHl].
  - (* dictionaries *)
    inversion Hp1 as [| | | | | |? Hnd1 Hall1]; inversion Hp2 as [| | | | | |? Hnd2 Hall2];
      subst.
    match goal with H : length _ = length _ |- _ => rename H into Hlen end.
    match goal with H : Forall (λ kv, ∃ v', _) _ |- _ => rename H into Hin end.
    simpl. do 4 f_equal.
    set (enc := λ kv : string * json, (kv.1, dumps kv.2)).
    assert ((map enc d2).*1 = d2.*1) as Hkeys2.
    { rewrite <-list_fmap_compose. apply list_fmap_ext. by intros ? []. }
    assert ((map enc members).*1 = members.*1) as Hkeys1.
    { rewrite <-list_fmap_compose. apply list_fmap_ext. by intros ? []. }
    apply sort_items_unique; [by rewrite Hkeys2|].
    apply submseteq_length_Permutation; [|by rewrite !length_map, Hlen].
    apply NoDup_submseteq.
    { apply (NoDup_fmap_1 fst). by rewrite Hkeys1. }
    intros [k x] Hx. apply list_elem_of_fmap in Hx as ([k' v] & [= -> ->] & Hkv).
    rewrite Forall_forall in IH, Hin, Hall1, Hall2.
    destruct (Hin _ Hkv) as (v' & Hlook & Hvv'). simpl in *.
    apply dict_lookup_elem in Hlook.
    apply list_elem_of_fmap. exists (k', v'). split; [|done].
    unfold enc. simpl. f_equal.
    apply (IH _ Hkv); [apply (Hall1 _ Hkv) | apply (Hall2 _ Hlook) | done].
Qed.

(** C9. The cache key is a function of the method, the URL and the
    parameters, and parameter dictionaries that are equal as mappings
    (same keys, equal values, whatever the insertion order, also in
    nested dictionaries) give the same key. *)
Theorem cache_key_canonical method url (p1 p2 : option dict) :
  proper (JObj (params_or_empty p1)) → proper (JObj (params_or_empty p2)) →
  same_value (JObj (params_or_empty p1)) (JObj (params_or_empty p2)) →
  cache_key method url p1 = cache_key method url p2.
Proof.
  intros Hp1 Hp2 Hsame. unfold cache_key.
  by rewrite (dumps_canonical _ _ Hp1 Hp2 Hsame).
Qed.

Lemma dict_lookup_unique k (d : dict) v :
  NoDup d.*1 → (k, v) ∈ d → dict_lookup k d = Some v.
Proof.
  induction d as [|[k' v'] d IH]; simpl; intros Hnd Hin.
  - by apply elem_of_nil in Hin.
  - apply NoDup_cons in Hnd as [Hnotin Hnd].
    apply elem_of_cons in Hin as [Hin|Hin]; simplify_eq.
    + by rewrite String.eqb_refl.
    + destruct (String.eqb_spec k' k) as [->|Hne]; [|by apply IH].
      exfalso. apply Hnotin. apply list_elem_of_fmap.
      eexists (_, _). split; [|exact Hin]. done.
Qed.

Lemma same_value_refl v : proper v → same_value v v.
Proof.
  induction v as [| | | | |items IH|members IH] using json_nested_ind;
    intros Hp; try constructor.
  - inversion Hp as [| | | | |? Hall|]; subst.
    apply Forall_Forall2_diag. rewrite Forall_forall in IH, Hall |- *.
    intros x Hx. by apply IH, Hall.
  - done.
  - inversion Hp as [| | | | | |? Hnd Hall]; subst.
    rewrite Forall_forall in IH, Hall |- *.
    intros [k v] Hkv. exists v. split.
    + by apply dict_lookup_unique.
    + apply (IH _ Hkv), (Hall _ Hkv).
Qed.

(** The order in which the parameters were inserted does not matter. *)
Lemma cache_key_insertion_order method url (d1 d2 : dict) :
  proper (JObj d1) → d1 ≡ₚ d2 →
  cache_key method url (Some d1) = cache_key method url (Some d2).
Proof.
  intros Hp Hperm.
  inversion Hp as [| | | | | |? Hnd Hall]; subst.
  assert (proper (JObj d2)) as Hp2.
  { constructor; [by rewrite <-Hperm | by rewrite <-Hperm]. }
  unfold cache_key. simpl params_or_empty.
  rewrite (dumps_canonical (JObj d1) (JObj d2)); [done..|].
  constructor; [by rewrite Hperm|].
  rewrite Forall_forall in Hall |- *.
  intros [k v] Hkv. exists v. split.
  - apply dict_lookup_unique; [by rewrite <-Hperm | by rewrite <-Hperm].
  - apply same_value_refl, (Hall _ Hkv).
Qed.

(** ** Constructing a client *)

Lemma int_of_getenv env name default n :
  py_int default = Some n →
  int_of_str (getenv env name default)
  = resolve None (int_of_str <$> env name) (Ret n).
Proof.
  intros Hd. unfold getenv, resolve. destruct (env name); simpl; [done|].
  unfold int_of_str. by rewrite Hd.
Qed.

(** C8 (amended). Each of the timeout, the retry count and the base address
    is the explicit argument when one is passed that Python does not take
    for false (a number other than 0, a string that is not empty), else the
    environment variable (read with [int] for the two numbers), else the
    default: 30, 3 and http://localhost:8080; slashes at the end of the
    base address are dropped. *)
Theorem config_resolution env key base t r caching ttl :
  t ≠ Some 0 → r ≠ Some 0 → base ≠ Some EmptyString →
  FortitudeClient_init env key base t r caching ttl =
    res_bind (resolve (Ret <$> t) (int_of_str <$> env "FORTITUDE_TIMEOUT") (Ret 30))
      (λ timeout,
    res_bind (resolve (Ret <$> r) (int_of_str <$> env "FORTITUDE_MAX_RETRIES") (Ret 3))
      (λ max_retries,
    str_or (str_or key Some (env "FORTITUDE_API_KEY"))
      (λ k, Ret {| api_key := k;
                   base_url :=
                     rstrip_slash
                       (resolve base (env "FORTITUDE_BASE_URL") "http://localhost:8080");
                   timeout := timeout; max_retries := max_retries;
                   enable_cache := caching; cache_ttl := ttl |})
      (Raise (ValueError "API key is required. Set FORTITUDE_API_KEY environment variable or pass api_key parameter.")))).
Proof.
  intros Ht Hr Hbase. unfold FortitudeClient_init.
  assert (int_or t (int_of_str (getenv env "FORTITUDE_TIMEOUT" "30"))
          = resolve (Ret <$> t) (int_of_str <$> env "FORTITUDE_TIMEOUT") (Ret 30)) as ->.
  { destruct t as [[| |]|]; try done. by apply int_of_getenv. }
  assert (int_or r (int_of_str (getenv env "FORTITUDE_MAX_RETRIES" "3"))
          = resolve (Ret <$> r) (int_of_str <$> env "FORTITUDE_MAX_RETRIES") (Ret 3)) as ->.
  { destruct r as [[| |]|]; try done. by apply int_of_getenv. }
  assert (str_or base id (getenv env "FORTITUDE_BASE_URL" "http://localhost:8080")
          = resolve base (env "FORTITUDE_BASE_URL") "http://localhost:8080") as ->.
  { destruct base as [[|]|]; try done. }
  reflexivity.
Qed.

(** ** The two variants *)

Section Variants.

Variable urljoin : string → string → string.

(** The session of aiohttp and the session of requests. *)
Variables aio_transport req_transport : nat → http_request → exchange.
Variable json_error_is_request_exception : bool.

Hypothesis same_time :
  ∀ n rq, latency (aio_transport n rq) = latency (req_transport n rq).
Hypothesis alike :
  ∀ n rq, reported_alike (result (aio_transport n rq)) (result (req_transport n rq)).

Lemma attempt_bodies_agree self method url payload params use_cache key attempt s :
  async_attempt_body aio_transport self method url payload params use_cache key
    attempt s
  = attempt_body req_transport json_error_is_request_exception
      self method url payload params use_cache key attempt s.
Proof.
  unfold async_attempt_body, attempt_body, try_except, dispatch, mbind, M_bind,
    mret, M_ret, raise, aio_response_json, response_json.
  simpl.
  set (rq := {| req_method := method; req_url := url; req_json := payload;
                req_params := params; req_timeout := timeout self |}).
  rewrite (same_time (sent s) rq).
  destruct (alike (sent s) rq) as [what|r Hal]; simpl; [done|].
  unfold decodes_alike in Hal.
  destruct (mimetype_error r) as [w|], (body r) as [v|why|why]; try done; simpl.
  - apply negb_true_iff in Hal. rewrite Hal.
    destruct (transient (status r)); [destruct (attempt <? max_retries self)|];
      reflexivity.
  - apply negb_true_iff in Hal. rewrite Hal.
    destruct (transient (status r)); [destruct (attempt <? max_retries self)|];
      reflexivity.
  - destruct (status r =? 200).
    + destruct (use_cache && enable_cache self && (method =? "GET")%string);
        reflexivity.
    + destruct (transient (status r)); [destruct (attempt <? max_retries self)|];
        simpl; try reflexivity; destruct v; reflexivity.
Qed.

Lemma loops_agree (b1 b2 : Z → M control) l :
  (∀ a s, b1 a s = b2 a s) → ∀ s, for_attempts b1 l s = for_attempts b2 l s.
Proof.
  intros Hb. induction l as [|a l IH]; intros s; [done|].
  rewrite !for_attempts_cons, Hb.
  destruct (b2 a s) as [[[v|]|e] s']; auto.
Qed.

(** C7 (amended). With its session open, and when the two libraries report
    every call alike (a failure of the connection with the same text, or
    the same response, whose body both decode alike; no timeout, no call
    refused) and in the same time, the cooperative variant ends a call as
    the blocking one does: same result or exception, same cache, same
    number of dispatches, same delays. *)
Theorem variants_agree self method endpoint payload params use_cache s :
  async_make_request urljoin aio_transport {| config := self; _session := true |}
    method endpoint payload params use_cache s
  = _make_request urljoin req_transport json_error_is_request_exception
      self method endpoint payload params use_cache s.
Proof.
  unfold async_make_request, _make_request. simpl.
  unfold mbind, M_bind.
  destruct (cache_check _ _ _ _ s) as [[[cached|]|e] s']; try done.
  rewrite (loops_agree _ _ _ (attempt_bodies_agree _ _ _ _ _ _ _)).
  reflexivity.
Qed.

End Variants.

(** * Instances *)

Lemma make_request_attempts_bounded_witness :
  0 ≤ max_retries (sample_client 3 false)
  ∧ 0 ≤ dispatched initial
           (_make_request join_path (always (garbled_response 500 "oops" None)) true
              (sample_client 3 false) "GET" "/health" None None true initial).2
      ≤ max_retries (sample_client 3 false) + 1.
Proof.
  split; [simpl; lia|].
  apply (make_request_attempts_bounded join_path
           (always (garbled_response 500 "oops" None)) true
           (sample_client 3 false) "GET" "/health" None None true initial).
  simpl. lia.
Defined.

Lemma trailing_raise_unreachable_witness :
  0 ≤ max_retries (sample_client 3 false)
  ∧ (_make_request join_path (always (garbled_response 500 "oops" None)) true
       (sample_client 3 false) "GET" "/health" None None true initial).1
    ≠ Raise max_retries_exceeded.
Proof.
  split; [simpl; lia|].
  apply (trailing_raise_unreachable join_path
           (always (garbled_response 500 "oops" None)) true
           (sample_client 3 false) "GET" "/health" None None true initial).
  simpl. lia.
Defined.

(** With a negative retry count the loop is empty and the line after it is reached. *)
Example trailing_raise_reached :
  _make_request join_path (always healthy) true (sample_client (-1) false)
    "GET" "/health" None None true initial
  = (Raise max_retries_exceeded, initial).
Proof. reflexivity. Qed.

Lemma non_retryable_status_surfaces_witness :
  let r := json_response 404 (JObj [("message", JStr "no such result")]) None in
  let out := _make_request join_path (always r) true (sample_client 3 false)
               "GET" "/api/v1/research/42" None None true initial in
  sent out.2 = 1%nat ∧ slept out.2 = []
  ∧ out.1 = Raise (ApiError {| message := JStr "no such result"; error_code := JNull;
                               status_code := Some 404; request_id := JNull;
                               details := JNull |}).
Proof.
  intros r out.
  destruct (non_retryable_status_surfaces join_path (always r) true
              (sample_client 3 false) "GET" "/api/v1/research/42" None None true
              initial 0%nat r) as (Hsent & Hslept & Hobj & _).
  - vm_compute. lia.
  - reflexivity.
  - simpl. lia.
  - reflexivity.
  - split; [exact Hsent|]. split; [exact Hslept|].
    exact (Hobj _ eq_refl).
Defined.

Example persistent_server_error_instance :
  let out := _make_request join_path (always (garbled_response 500 "oops" None)) true
               (sample_client 3 false) "GET" "/health" None None true initial in
  dispatched initial out.2 = 3 + 1
  ∧ ∃ last e,
      result (always (garbled_response 500 "oops" None) (sent out.2 - 1)
                {| req_method := "GET"; req_url := join_path "http://localhost:8080" "/health";
                   req_json := None; req_params := None; req_timeout := 30 |})
      = Responded last
      ∧ out.1 = Raise (ApiError e)
      ∧ ApiError e = error_for last
      ∧ status_code e = Some 500.
Proof.
  apply (persistent_server_error join_path
           (always (garbled_response 500 "oops" None)) true
           (sample_client 3 false) "GET" "/health" None None true initial).
  - simpl. lia.
  - reflexivity.
  - intros i. eexists. split; reflexivity.
  - intros r [= <-]. exact I.
Defined.

(** C2. When every dispatch is answered with status 500 the call should
    end, after [max_retries + 1] dispatches, with a [FortitudeAPIError].
    Here it does not: the four answers carry the JSON list [[]] as their
    body, [error_data.get] does not exist on a list, and the call ends
    with an [AttributeError] that no handler turns into a
    [FortitudeAPIError]. *)
Theorem persistent_server_error_escapes :
  let out := _make_request join_path (always (json_response 500 (JArr []) None)) true
               (sample_client 3 false) "GET" "/health" None None true initial in
  sent out.2 = 4%nat
  ∧ out.1 = Raise (AttributeError "'list' object has no attribute 'get'")
  ∧ ∀ e, out.1 ≠ Raise (ApiError e).
Proof.
  vm_compute. split; [reflexivity|]. split; [reflexivity|]. discriminate.
Qed.

Lemma cached_result_served_witness :
  let first := _make_request join_path (always healthy) true (sample_client 3 true)
                 "GET" "/api/v1/research" None (Some page_params) true initial in
  first.1 = Ret (JObj [("status", JStr "healthy")])
  ∧ _make_request join_path (always healthy) true (sample_client 3 true)
      "GET" "/api/v1/research" None (Some page_params') true after_first_call
    = (Ret (JObj [("status", JStr "healthy")]), after_first_call).
Proof.
  split; [vm_compute; reflexivity|].
  apply (cached_result_served join_path (always healthy) true (sample_client 3 true)
           "GET" "/api/v1/research" None (Some page_params) None (Some page_params')
           initial after_first_call).
  - reflexivity.
  - reflexivity.
  - vm_compute. reflexivity.
  - vm_compute. reflexivity.
  - reflexivity.
  - intros e He. vm_compute in He. injection He as <-. reflexivity.
Defined.

Lemma expired_entry_refetched_witness :
  let key := cache_key "GET" "http://localhost:8080/health" None in
  let out := _make_request join_path (always healthy) true (sample_client 3 true)
               "GET" "/health" None None true stale in
  cache_check (sample_client 3 true) "GET" key true stale = (Ret None, stale)
  ∧ (sent stale < sent out.2)%nat
  ∧ match out.1 with
    | Ret v => ∃ t, _cache out.2 = <[key := {| data := v; timestamp := t |}]> (_cache stale)
    | Raise _ => _cache out.2 = _cache stale
    end.
Proof.
  apply (expired_entry_refetched join_path (always healthy) true
           (sample_client 3 true) "GET" "/health" None None true stale
           {| data := JNull; timestamp := 0 |}).
  - reflexivity.
  - reflexivity.
  - reflexivity.
  - simpl. lia.
  - vm_compute. reflexivity.
  - vm_compute. discriminate.
Defined.

Lemma variants_agree_witness :
  async_make_request join_path (always healthy)
    {| config := sample_client 3 true; _session := true |}
    "GET" "/health" None None true initial
  = _make_request join_path (always healthy) true (sample_client 3 true)
      "GET" "/health" None None true initial.
Proof.
  apply (variants_agree join_path (always healthy) (always healthy) true).
  - intros n rq. reflexivity.
  - intros n rq. apply alike_responded. reflexivity.
Defined.

(** C7, as stated, fails: on a 404 answer whose body is the JSON object
    [{}] sent without a JSON content type, the blocking client raises the
    error read from the body and the cooperative client the one made of
    the raw status and text. *)
Lemma variants_disagree :
  let r := json_response 404 (JObj []) (Some "unexpected mimetype: text/plain") in
  (_make_request join_path (always r) true (sample_client 3 false)
     "GET" "/health" None None true initial).1
  = Raise (ApiError {| message := JStr "Unknown error"; error_code := JNull;
                       status_code := Some 404; request_id := JNull;
                       details := JNull |})
  ∧ (async_make_request join_path (always r)
       {| config := sample_client 3 false; _session := true |}
       "GET" "/health" None None true initial).1
    = Raise (ApiError {| message := JStr "HTTP 404: {}"; error_code := JNull;
                         status_code := Some 404; request_id := JNull;
                         details := JNull |})
  ∧ (_make_request join_path (always r) true (sample_client 3 false)
       "GET" "/health" None None true initial).1
    ≠ (async_make_request join_path (always r)
         {| config := sample_client 3 false; _session := true |}
         "GET" "/health" None None true initial).1.
Proof.
  vm_compute. split; [reflexivity|]. split; [reflexivity|]. discriminate.
Qed.

(** A body that is not JSON under a JSON content type: the blocking client
    raises its [FortitudeAPIError], the cooperative one lets the
    [JSONDecodeError] through. *)
Example undecodable_body_escapes :
  let r := garbled_response 404 "<html>" None in
  (_make_request join_path (always r) true (sample_client 3 false)
     "GET" "/health" None None true initial).1
  = Raise (ApiError {| message := JStr "HTTP 404: <html>"; error_code := JNull;
                       status_code := Some 404; request_id := JNull;
                       details := JNull |})
  ∧ (async_make_request join_path (always r)
       {| config := sample_client 3 false; _session := true |}
       "GET" "/health" None None true initial).1
    = Raise (JSONDecodeError "Expecting value").
Proof. vm_compute. split; reflexivity. Qed.

(** A timeout: requests raises its [Timeout], a [RequestException], which
    the blocking client retries and then wraps; aiohttp raises
    [asyncio.TimeoutError], which the cooperative client lets through at
    the first dispatch. *)
Example timeout_retried_or_escapes :
  let b := _make_request join_path slow_for_requests true (sample_client 3 false)
             "GET" "/health" None None true initial in
  let a := async_make_request join_path slow_for_aiohttp
             {| config := sample_client 3 false; _session := true |}
             "GET" "/health" None None true initial in
  b.1 = Raise (ApiError (plain_error "Request failed: Read timed out."))
  ∧ sent b.2 = 4%nat
  ∧ a.1 = Raise TimeoutError
  ∧ sent a.2 = 1%nat.
Proof. repeat split; reflexivity. Qed.

(** A 200 without a body: the blocking client cannot decode it, the
    cooperative one returns [None]. *)
Example empty_body_is_none :
  let b := _make_request join_path (always (empty_response 200)) true
             (sample_client 0 false) "GET" "/health" None None true initial in
  let a := async_make_request join_path (always (empty_response 200))
             {| config := sample_client 0 false; _session := true |}
             "GET" "/health" None None true initial in
  b.1 = Raise (ApiError (plain_error
                 "Request failed: Expecting value: line 1 column 1 (char 0)"))
  ∧ a.1 = Ret JNull.
Proof. split; reflexivity. Qed.

(** A call that the library refuses is not retried: its [ValueError]
    reaches the caller of the blocking client. *)
Example refused_call_escapes :
  let b := _make_request join_path refusing true
             {| api_key := "k"; base_url := "http://localhost:8080"; timeout := 0;
                max_retries := 3; enable_cache := false; cache_ttl := 300 |}
             "GET" "/health" None None true initial in
  b.1 = Raise (ValueError "Attempted to set connect timeout to 0, but the timeout cannot be set to a value less than or equal to 0.")
  ∧ sent b.2 = 1%nat.
Proof. split; reflexivity. Qed.

(** A cooperative client that was not entered refuses the call. *)
Example session_not_open :
  async_make_request join_path (always healthy)
    {| config := sample_client 3 false; _session := false |}
    "GET" "/health" None None true initial
  = (Raise (RuntimeError "Client not initialized. Use 'async with' statement."), initial).
Proof. reflexivity. Qed.

Lemma config_resolution_witness :
  FortitudeClient_init sample_env (Some "k") (Some "http://api.example/") None (Some 5)
    true 60
  = Ret {| api_key := "k"; base_url := "http://api.example"; timeout := 45;
           max_retries := 5; enable_cache := true; cache_ttl := 60 |}.
Proof.
  rewrite (config_resolution sample_env (Some "k") (Some "http://api.example/")
             None (Some 5) true 60); [reflexivity|discriminate..].
Defined.

(** C8, as stated, fails: an explicit retry count of 0 gives way to the
    default 3, and the explicit base address loses its final slash. *)
Lemma explicit_value_overridden :
  let cfg := {| api_key := "k"; base_url := "http://api.example"; timeout := 30;
                max_retries := 3; enable_cache := false; cache_ttl := 300 |} in
  FortitudeClient_init (λ _, None) (Some "k") (Some "http://api.example/") None (Some 0)
    false 300
  = Ret cfg
  ∧ max_retries cfg ≠ resolve (Some 0) None 3
  ∧ base_url cfg ≠ resolve (Some "http://api.example/") None "http://localhost:8080".
Proof. split; [reflexivity|]. split; discriminate. Qed.

Lemma cache_key_canonical_witness :
  cache_key "GET" "http://localhost:8080/api/v1/research" (Some page_params)
  = cache_key "GET" "http://localhost:8080/api/v1/research" (Some page_params').
Proof.
  apply cache_key_canonical.
  - constructor; [|repeat constructor].
    simpl. apply NoDup_cons. split; [|apply NoDup_singleton].
    rewrite list_elem_of_singleton. discriminate.
  - constructor; [|repeat constructor].
    simpl. apply NoDup_cons. split; [|apply NoDup_singleton].
    rewrite list_elem_of_singleton. discriminate.
  - constructor; [reflexivity|].
    repeat constructor; eexists; (split; [reflexivity|constructor]).
Defined.

(** * Further properties of the engine *)

Section MoreCalls.

Variable urljoin : string → string → string.
Variable transport : nat → http_request → exchange.
Variable json_error_is_request_exception : bool.

Let call := _make_request urljoin transport json_error_is_request_exception.

Section OneMoreCall.

Variable self : FortitudeClient.
Variables method endpoint : string.
Variable payload : option json.
Variable params : option dict.
Variable use_cache : bool.

Let url := urljoin (base_url self) endpoint.
Let key := cache_key method url params.
Let rq : http_request :=
  {| req_method := method; req_url := url; req_json := payload;
     req_params := params; req_timeout := timeout self |}.
Let cacheable : bool := use_cache && enable_cache self && String.eqb method "GET".
Let body_ :=
  attempt_body transport json_error_is_request_exception
    self method url payload params use_cache key.
Let loop := for_attempts body_ (range (max_retries self + 1)).
Let run := loop_run transport json_error_is_request_exception self rq cacheable key.
Let may_retry (i : nat) : bool :=
  retryable json_error_is_request_exception (result (transport i rq)).

(** An outcome that may be retried, before the last attempt, is retried. *)
Lemma body_retryable attempt s :
  may_retry (sent s) = true → attempt < max_retries self →
  body_ attempt s =
    (Ret Continue,
     after_sleep (2 ^ attempt) (after_dispatch (latency (transport (sent s) rq)) s)).
Proof.
  intros Hretry Ha.
  pose proof (body_cases transport json_error_is_request_exception
                self method url payload params use_cache key attempt s) as Hstep.
  fold body_ rq cacheable in Hstep.
  destruct (body_ attempt s) as [c s']. simpl in Hstep.
  inversion Hstep as [? ?|r v Hx H200 Hb|e ? Hmax ?]; subst.
  - reflexivity.
  - exfalso. unfold may_retry in Hretry. rewrite Hx in Hretry. simpl in Hretry.
    rewrite H200, Hb in Hretry. done.
  - exfalso. specialize (Hmax Hretry). lia.
Qed.

(** The loop when the first [k] outcomes may be retried and the next one
    is a 200 whose body decodes. *)
Lemma loop_recovers k :
  ∀ attempt n s r v,
    (k < n)%nat → attempt + Z.of_nat k ≤ max_retries self →
    (∀ i, (i < k)%nat → may_retry (sent s + i) = true) →
    result (transport (sent s + k) rq) = Responded r →
    status r = 200 → body r = Decoded v →
    ∃ s', for_attempts body_ (seqZ attempt (Z.of_nat n)) s = (Ret (Some v), s')
          ∧ sent s' = (sent s + k + 1)%nat
          ∧ slept s' = slept s ++ (Z.pow 2 <$> seqZ attempt (Z.of_nat k))
          ∧ _cache s' =
            if cacheable
            then <[key := {| data := v; timestamp := now s' |}]> (_cache s)
            else _cache s.
Proof.
  induction k as [|k IH]; intros attempt n s r v Hn Ha Hretry Hx H200 Hb.
  - rewrite Nat.add_0_r in Hx.
    rewrite seqZ_cons by lia. rewrite for_attempts_cons.
    unfold body_. rewrite (body_ok _ _ _ _ _ _ _ _ _ _ _ _ _ Hx H200 Hb).
    fold cacheable. eexists. split; [reflexivity|].
    destruct cacheable; simpl; rewrite app_nil_r; repeat split; lia.
  - rewrite seqZ_cons by lia. rewrite for_attempts_cons.
    rewrite body_retryable; [| |lia].
    2:{ specialize (Hretry 0%nat). rewrite Nat.add_0_r in Hretry.
        apply Hretry. lia. }
    set (s1 := after_sleep _ _).
    destruct (IH (Z.succ attempt) (Nat.pred n) s1 r v) as (s' & Hrun & Hsent & Hslept & Hc).
    + lia.
    + lia.
    + intros i Hi. subst s1. simpl.
      replace (S (sent s + i)) with (sent s + S i)%nat by lia. apply Hretry. lia.
    + subst s1. simpl. replace (S (sent s + k)) with (sent s + S k)%nat by lia. done.
    + done.
    + done.
    + exists s'. replace (Z.pred (Z.of_nat n)) with (Z.of_nat (Nat.pred n)) by lia.
      split; [done|]. subst s1. simpl in *. split; [lia|]. split; [|done].
      rewrite Hslept, <-app_assoc. f_equal.
      rewrite (seqZ_cons attempt) by lia. simpl.
      replace (Z.pred (Z.of_nat (S k))) with (Z.of_nat k) by lia. done.
Qed.

(** The loop when every dispatch fails at the transport level. *)
Lemma loop_all_failed n :
  (∀ i, ∃ what, result (transport i rq) = Failed what) →
  ∀ attempt s, attempt + Z.of_nat n = max_retries self →
  ∃ what s',
    result (transport (sent s + n) rq) = Failed what
    ∧ for_attempts body_ (seqZ attempt (Z.of_nat (S n))) s
      = (Raise (ApiError (plain_error ("Request failed: " +:+ what))), s')
    ∧ sent s' = (sent s + S n)%nat
    ∧ slept s' = slept s ++ (Z.pow 2 <$> seqZ attempt (Z.of_nat n))
    ∧ _cache s' = _cache s.
Proof.
  intros Hall. induction n as [|n IH]; intros attempt s Ha.
  - destruct (Hall (sent s)) as (what & Hx).
    exists what. eexists. rewrite Nat.add_0_r. split; [done|].
    rewrite seqZ_cons, seqZ_nil by lia. rewrite for_attempts_cons.
    unfold body_. rewrite (body_failed _ _ _ _ _ _ _ _ _ _ _ _ Hx). simpl.
    assert ((attempt <? max_retries self) = false) as -> by (apply Z.ltb_ge; lia).
    split; [reflexivity|]. simpl. rewrite app_nil_r. repeat split; lia.
  - destruct (Hall (sent s)) as (what0 & Hx).
    rewrite seqZ_cons by lia. rewrite for_attempts_cons.
    rewrite body_retryable; [| |lia].
    2:{ unfold may_retry. by rewrite Hx. }
    set (s1 := after_sleep _ _).
    destruct (IH (Z.succ attempt) s1) as (what & s' & Hlast & Hrun & Hsent & Hslept & Hc);
      [lia|].
    exists what, s'. subst s1. simpl in *.
    replace (sent s + S n)%nat with (S (sent s + n)) by lia.
    split; [done|].
    replace (Z.pred (Z.of_nat (S (S n)))) with (Z.of_nat (S n)) by lia.
    split; [done|]. split; [lia|]. split; [|done].
    rewrite Hslept, <-app_assoc. f_equal.
    rewrite (seqZ_cons attempt) by lia. simpl.
    replace (Z.pred (Z.of_nat (S n))) with (Z.of_nat n) by lia. done.
Qed.

(** A run that ends by [return]: the last dispatch brought a 200 whose
    body is the result, and the result is stored with the time of the end. *)
Lemma run_return_inv l s v s' :
  run l s (Ret (Some v)) s' →
  (sent s < sent s')%nat
  ∧ (∃ r, result (transport (Nat.pred (sent s')) rq) = Responded r
          ∧ status r = 200 ∧ body r = Decoded v)
  ∧ (cacheable = true →
     _cache s' !! key = Some {| data := v; timestamp := now s' |}).
Proof.
  intros H. remember (Ret (Some v)) as res eqn:Hres.
  induction H as [s|a l s s1 r s' Hstep _ IH|a l s v' s1 Hstep|a l s e s1 Hstep];
    try discriminate.
  - destruct (IH Hres) as (Hlt & Hlast & Hstore).
    pose proof (step_sent _ _ _ _ _ _ _ _ _ _ _ _ _ Hstep) as Hs.
    split; [lia|]. done.
  - injection Hres as ->.
    pose proof (step_sent _ _ _ _ _ _ _ _ _ _ _ _ _ Hstep) as Hs.
    inversion Hstep as [|r v1 Hx H200 Hb|]; subst.
    split; [lia|]. split.
    + exists r. rewrite Hs. done.
    + intros ->. simpl. by rewrite lookup_insert_eq.
Qed.

Lemma loop_run_here s : run (range (max_retries self + 1)) s (loop s).1 (loop s).2.
Proof. apply for_attempts_run. Qed.

(** X1. When every dispatch of a call that is not served from the cache
    fails at the transport level, the call makes [max_retries + 1]
    dispatches, sleeping 1, 2, 4, ... between them, and raises
    [FortitudeAPIError("Request failed: <the last failure>")], with no
    status code; the cache is left as it was. *)
Theorem persistent_transport_failure s :
  0 ≤ max_retries self →
  (cache_check self method key use_cache s).1 = Ret None →
  (∀ i, ∃ what, result (transport i rq) = Failed what) →
  let out := call self method endpoint payload params use_cache s in
  dispatched s out.2 = max_retries self + 1
  ∧ slept out.2 = slept s ++ (Z.pow 2 <$> seqZ 0 (max_retries self))
  ∧ _cache out.2 = _cache s
  ∧ ∃ what,
      result (transport (Nat.pred (sent out.2)) rq) = Failed what
      ∧ out.1 = Raise (ApiError {| message := JStr ("Request failed: " +:+ what);
                                   error_code := JNull; status_code := None;
                                   request_id := JNull; details := JNull |}).
Proof.
  simpl. intros Hmax Hmiss Hall. unfold call. rewrite call_unfold.
  fold url key.
  destruct (cache_check_cases urljoin self method endpoint params use_cache s)
    as [[Hcheck _]|(e & Hcheck & _)]; fold url key in Hcheck;
    rewrite Hcheck in *; [|done].
  destruct (loop_all_failed (Z.to_nat (max_retries self)) Hall 0 s)
    as (what & s' & Hlast & Hrun & Hsent & Hslept & Hc); [lia|].
  replace (Z.of_nat (S (Z.to_nat (max_retries self)))) with (max_retries self + 1)
    in Hrun by lia.
  fold (range (max_retries self + 1)) in Hrun. fold body_ in Hrun |- *.
  rewrite Hrun. simpl. unfold dispatched.
  split; [lia|]. split; [by rewrite Hslept, Z2Nat.id|]. split; [done|].
  exists what. rewrite Hsent.
  replace (Nat.pred (sent s + S (Z.to_nat (max_retries self))))
    with (sent s + Z.to_nat (max_retries self))%nat by lia.
  done.
Qed.

(** X2. When the first [k] dispatches of a call that is not served from the
    cache have outcomes that are retried (a failure of the connection, a
    timeout or one of the statuses 429, 500, 502, 503, 504), [k] being at
    most [max_retries], and
    the next one brings a 200 whose body decodes, the call returns that
    body after [k + 1] dispatches and the delays 1, 2, ..., [2^(k-1)]; a
    cacheable GET stores it with the time of the return, and any other
    call leaves the cache alone. *)
Theorem recovers_after_retries s (k : nat) r v :
  Z.of_nat k ≤ max_retries self →
  (cache_check self method key use_cache s).1 = Ret None →
  (∀ i, (i < k)%nat → may_retry (sent s + i) = true) →
  result (transport (sent s + k) rq) = Responded r →
  status r = 200 → body r = Decoded v →
  let out := call self method endpoint payload params use_cache s in
  out.1 = Ret v
  ∧ sent out.2 = (sent s + k + 1)%nat
  ∧ slept out.2 = slept s ++ (Z.pow 2 <$> seqZ 0 (Z.of_nat k))
  ∧ _cache out.2 =
    if cacheable
    then <[key := {| data := v; timestamp := now out.2 |}]> (_cache s)
    else _cache s.
Proof.
  simpl. intros Hk Hmiss Hretry Hx H200 Hb. unfold call. rewrite call_unfold.
  fold url key.
  destruct (cache_check_cases urljoin self method endpoint params use_cache s)
    as [[Hcheck _]|(e & Hcheck & _)]; fold url key in Hcheck;
    rewrite Hcheck in *; [|done].
  destruct (loop_recovers k 0 (Z.to_nat (max_retries self + 1)) s r v)
    as (s' & Hrun & Hsent & Hslept & Hc); [lia|lia|done..|].
  rewrite Z2Nat.id in Hrun by lia.
  fold (range (max_retries self + 1)) in Hrun. fold body_ in Hrun |- *.
  rewrite Hrun. simpl. done.
Qed.

(** X3. A call returns a result only from the cache or from a 200: either
    the state is untouched and the result is the data of a live entry
    under the key of a cacheable GET, or the last dispatch of the call
    brought status 200 and a body that decodes to the result. *)
Theorem result_provenance s v :
  let out := call self method endpoint payload params use_cache s in
  out.1 = Ret v →
  (out.2 = s
   ∧ ∃ e, cacheable = true ∧ _cache s !! key = Some e ∧ data e = v
          ∧ (now s - timestamp e < inject_Z (cache_ttl self))%Q)
  ∨ ((sent s < sent out.2)%nat
     ∧ ∃ r, result (transport (Nat.pred (sent out.2)) rq) = Responded r
            ∧ status r = 200 ∧ body r = Decoded v).
Proof.
  simpl. unfold call. rewrite call_unfold. fold url key.
  destruct (cache_check_cases urljoin self method endpoint params use_cache s)
    as [[Hcheck _]|(e & Hcheck & Hc & He & Hfresh)]; fold url key in Hcheck;
    rewrite Hcheck.
  - pose proof (loop_run_here s) as Hrun. fold body_. fold loop.
    destruct (loop s) as [[[v'|]|err] s'']; simpl in *; try done.
    intros [= ->]. right.
    apply run_return_inv in Hrun as (Hlt & Hlast & _). done.
  - simpl. intros [= <-]. left. split; [done|].
    exists e. fold url key in He. fold cacheable in Hc.
    apply fresh_spec in Hfresh. done.
Qed.

(** X4. A call touches at most the entry under its own key, and never
    removes one: every other key keeps its entry, and a key that had an
    entry still has one. *)
Theorem cache_frame s k' :
  let out := call self method endpoint payload params use_cache s in
  (k' ≠ key → _cache out.2 !! k' = _cache s !! k')
  ∧ (is_Some (_cache s !! k') → is_Some (_cache out.2 !! k')).
Proof.
  simpl. unfold call. rewrite call_unfold. fold url key.
  destruct (cache_check_cases urljoin self method endpoint params use_cache s)
    as [[Hcheck _]|(e & Hcheck & _)]; fold url key in Hcheck;
    rewrite Hcheck; [|done].
  pose proof (loop_run_here s) as Hrun. apply run_cache in Hrun.
  fold body_. fold loop.
  destruct (loop s) as [[[v'|]|err] s'']; simpl in *;
    try (rewrite Hrun; done).
  destruct Hrun as [t ->]. fold cacheable. destruct cacheable; [|done].
  split.
  - intros Hne. by rewrite lookup_insert_ne.
  - intros Hsome. destruct (decide (key = k')) as [<-|Hne].
    + rewrite lookup_insert_eq. done.
    + by rewrite lookup_insert_ne.
Qed.




(** After a cacheable GET has returned from a dispatch, the entry holds the
    result and the time of the return. *)
Lemma stored_on_return s v :
  cacheable = true →
  (cache_check self method key use_cache s).1 = Ret None →
  (call self method endpoint payload params use_cache s).1 = Ret v →
  let s' := (call self method endpoint payload params use_cache s).2 in
  _cache s' !! key = Some {| data := v; timestamp := now s' |}.
Proof.
  intros Hc Hmiss. simpl. unfold call. rewrite call_unfold. fold url key.
  destruct (cache_check_cases urljoin self method endpoint params use_cache s)
    as [[Hcheck _]|(e & Hcheck & _)]; fold url key in Hcheck;
    rewrite Hcheck in *; [|done].
  pose proof (loop_run_here s) as Hrun. fold body_. fold loop.
  destruct (loop s) as [[[v'|]|err] s'']; simpl in *; try done.
  intros [= ->]. apply run_return_inv in Hrun as (_ & _ & Hstore). by apply Hstore.
Qed.

(** X6. With a time to live that is positive, a cacheable GET that has
    returned is served from the cache when it is made again at once,
    whatever the transport would answer: same result, no dispatch, state
    unchanged. *)
Theorem repeat_served_from_cache s payload2 v :
  let first := call self method endpoint payload params use_cache s in
  use_cache = true → enable_cache self = true → method = "GET" →
  0 < cache_ttl self →
  first.1 = Ret v →
  call self method endpoint payload2 params use_cache first.2 = (Ret v, first.2).
Proof.
  cbv zeta. intros Huse Hen Hget Httl Hfirst.
  assert (cacheable = true) as Hc by (unfold cacheable; by rewrite Huse, Hen, Hget).
  assert (∃ e, _cache (call self method endpoint payload params use_cache s).2 !! key
               = Some e ∧ data e = v
               ∧ fresh (now (call self method endpoint payload params use_cache s).2)
                   (timestamp e) (cache_ttl self) = true) as (e & He & Hdata & Hfresh).
  { destruct (cache_check_cases urljoin self method endpoint params use_cache s)
      as [[Hcheck _]|(e & Hcheck & _ & He & Hfresh)]; fold url key in Hcheck.
    - eexists. split; [apply stored_on_return; [done|by rewrite Hcheck|done]|].
      split; [done|]. simpl. apply fresh_spec.
      assert (0 < inject_Z (cache_ttl self))%Q by (unfold Qlt; simpl; lia).
      lra.
    - fold url key in He. revert Hfirst. unfold call. rewrite call_unfold.
      fold url key. rewrite Hcheck. simpl. intros [= <-]. by exists e. }
  set (s' := (call self method endpoint payload params use_cache s).2) in *.
  unfold call at 1. rewrite call_unfold. fold url key.
  destruct (cache_check_cases urljoin self method endpoint params use_cache s')
    as [[_ Hmiss]|(e' & Hcheck' & _ & He' & _)].
  - exfalso. fold url key in Hmiss.
    destruct Hmiss as [Hno|[Hnone|(e' & He' & Hstale)]].
    + fold cacheable in Hno. congruence.
    + congruence.
    + congruence.
  - fold url key in Hcheck', He'. rewrite Hcheck'. simpl. congruence.
Qed.


End OneMoreCall.


End MoreCalls.

(** * The text of errors and the error summary *)

Lemma app_cons c s t : String c s +:+ t = String c (s +:+ t).
Proof. reflexivity. Qed.

Lemma app_empty t : EmptyString +:+ t = t.
Proof. reflexivity. Qed.

Lemma contains_app c s t : contains c (s +:+ t) = contains c s || contains c t.
Proof.
  unfold contains. induction s as [|a s IH]; [done|].
  rewrite app_cons. cbn [existsb list_ascii_of_string]. rewrite IH.
  by rewrite orb_assoc.
Qed.

Lemma before_colon_app s t :
  contains ":" s = false → before_colon (s +:+ t) = s +:+ before_colon t.
Proof.
  unfold contains. induction s as [|a s IH]; [done|].
  rewrite !app_cons. cbn [existsb list_ascii_of_string before_colon].
  intros H. apply orb_false_iff in H as [Ha Hs].
  rewrite (Ascii.eqb_sym a), Ha. by rewrite IH.
Qed.

Lemma app_inj_last c a b : a +:+ String c EmptyString = b +:+ String c EmptyString → a = b.
Proof.
  revert b. induction a as [|x a IH]; intros [|y b]; rewrite ?app_cons, ?app_empty;
    intros H; try done.
  - injection H as _ H. by destruct b.
  - injection H as _ H. by destruct a.
  - injection H as -> H. f_equal. by apply IH.
Qed.

(** The decimal text of a number is made of digits and a sign. *)
Lemma pretty_N_go_chars (P : ascii → Prop) :
  (∀ d, (d < 10)%N → P (pretty_N_char d)) →
  ∀ x s, Forall P (list_ascii_of_string s) →
         Forall P (list_ascii_of_string (pretty_N_go x s)).
Proof.
  intros Hdigit x. induction (N.lt_wf_0 x) as [x _ IH]. intros s Hs.
  destruct (decide (x = 0%N)) as [->|Hx]; [by rewrite pretty_N_go_0|].
  rewrite pretty_N_go_step by lia. apply IH.
  - apply N.div_lt; lia.
  - simpl. constructor; [|done]. apply Hdigit. apply N.mod_lt. lia.
Qed.

Lemma pretty_Z_chars (P : ascii → Prop) (z : Z) :
  (∀ d, (d < 10)%N → P (pretty_N_char d)) → P "-"%char →
  Forall P (list_ascii_of_string (pretty z)).
Proof.
  intros Hdigit Hdash.
  assert (∀ p, Forall P (list_ascii_of_string (pretty (Npos p)))) as Hpos.
  { intros p. unfold pretty, pretty_N. simpl. by apply pretty_N_go_chars. }
  destruct z as [|p|p]; unfold pretty, pretty_Z.
  - simpl. constructor; [|done]. apply (Hdigit 0%N). lia.
  - apply Hpos.
  - rewrite app_cons, app_empty. simpl. constructor; [done|apply Hpos].
Qed.

Lemma digit_chars (P : ascii → Prop) :
  P "0"%char → P "1"%char → P "2"%char → P "3"%char → P "4"%char →
  P "5"%char → P "6"%char → P "7"%char → P "8"%char → P "9"%char →
  ∀ d, (d < 10)%N → P (pretty_N_char d).
Proof.
  intros ? ? ? ? ? ? ? ? ? ? d _. unfold pretty_N_char.
  repeat match goal with
         | |- context [match ?x with _ => _ end] => destruct x
         end; assumption.
Qed.

Lemma pretty_no_colon (z : Z) : contains ":" (pretty z) = false.
Proof.
  unfold contains.
  assert (Forall (λ c, Ascii.eqb ":" c = false) (list_ascii_of_string (pretty z))) as H.
  { apply pretty_Z_chars; [|done].
    intros d Hd. by apply (digit_chars (λ c, Ascii.eqb ":" c = false)). }
  induction H as [|c l Hc _ IH]; [done|]. cbn [existsb]. by rewrite Hc, IH.
Qed.

Lemma pretty_not_None (z : Z) : pretty z ≠ "None".
Proof.
  assert (Forall (λ c, c ≠ "N"%char) (list_ascii_of_string (pretty z))) as H.
  { apply pretty_Z_chars; [|done].
    intros d Hd. by apply (digit_chars (λ c, c ≠ "N"%char)). }
  intros Heq. rewrite Heq in H. simpl in H. by inversion H.
Qed.

(** The text of the status code in the text of an error. *)
Lemma error_type_of_api_error e :
  error_type (FortitudeAPIError_str e)
  = "FortitudeAPIError("
    +:+ match status_code e with Some st => pretty st | None => "None" end
    +:+ ")".
Proof.
  unfold error_type, FortitudeAPIError_str.
  set (st := match status_code e with Some st => pretty st | None => "None" end).
  assert (contains ":" st = false) as Hst.
  { subst st. destruct (status_code e); [apply pretty_no_colon|done]. }
  rewrite !contains_app, Hst. simpl.
  rewrite before_colon_app by done. rewrite before_colon_app by done.
  reflexivity.
Qed.

(** X8. The error summary of the harness files a [FortitudeAPIError] under
    the text before the first colon of its [str], which is
    "FortitudeAPIError(<status code>)" whatever the message and the error
    code: two errors are counted together exactly when they have the same
    status code. *)
Theorem api_errors_grouped_by_status e1 e2 :
  error_type (FortitudeAPIError_str e1) = error_type (FortitudeAPIError_str e2)
  ↔ status_code e1 = status_code e2.
Proof.
  rewrite !error_type_of_api_error. split; [|by intros ->].
  intros H. apply (inj (String.app "FortitudeAPIError(")) in H.
  apply app_inj_last in H.
  destruct (status_code e1) as [a|], (status_code e2) as [b|]; try done.
  - f_equal. by apply (inj pretty).
  - by apply pretty_not_None in H.
  - symmetry in H. by apply pretty_not_None in H.
Qed.

(** ** The health probe of the performance harness *)

Section Probe.

Variable urljoin : string → string → string.
Variable transport : nat → http_request → exchange.
Variable json_error_is_request_exception : bool.



End Probe.

Lemma alist_get_set {A} k t (v : A) d default :
  alist_get t (alist_set k v d) default
  = if String.eqb k t then v else alist_get t d default.
Proof.
  induction d as [|[k' x] d IH]; simpl.
  - done.
  - destruct (String.eqb_spec k' k) as [->|Hne]; simpl.
    + destruct (String.eqb_spec k t); done.
    + rewrite IH. destruct (String.eqb_spec k' t) as [->|]; [|done].
      destruct (String.eqb_spec k t); [congruence|done].
Qed.

Lemma alist_set_keys {A} k (v : A) d :
  (alist_set k v d).*1 = if bool_decide (k ∈ d.*1) then d.*1 else d.*1 ++ [k].
Proof.
  induction d as [|[k' x] d IH]; [done|].
  cbn [alist_set].
  destruct (String.eqb_spec k' k) as [->|Hne]; rewrite !fmap_cons; cbn [fst].
  - rewrite bool_decide_true by left. done.
  - rewrite IH. destruct (bool_decide (k ∈ d.*1)) eqn:Hin.
    + apply bool_decide_eq_true in Hin. rewrite bool_decide_true by (by right). done.
    + apply bool_decide_eq_false in Hin.
      rewrite bool_decide_false; [done|].
      intros [?|?]%elem_of_cons; congruence.
Qed.

Lemma alist_set_NoDup {A} k (v : A) d : NoDup d.*1 → NoDup (alist_set k v d).*1.
Proof.
  intros Hnd. rewrite alist_set_keys. case_bool_decide as Hin; [done|].
  apply NoDup_app. split; [done|]. split; [|apply NoDup_singleton].
  intros x Hx ->%list_elem_of_singleton. done.
Qed.

(** The counts, from any dictionary of counts to start with. *)
Lemma fold_counts (l : list string) (counts : list (string * Z)) t :
  let step := λ (counts : list (string * Z)) (error : string),
                alist_set (error_type error)
                  (alist_get (error_type error) counts 0 + 1) counts in
  NoDup counts.*1 →
  NoDup (fold_left step l counts).*1
  ∧ alist_get t (fold_left step l counts) 0
    = alist_get t counts 0 + Z.of_nat (length (filter (λ e, error_type e = t) l)).
Proof.
  simpl. revert counts. induction l as [|e l IH]; intros counts Hnd.
  - simpl. split; [done|lia].
  - simpl fold_left.
    destruct (IH _ (alist_set_NoDup (error_type e)
                      (alist_get (error_type e) counts 0 + 1) counts Hnd))
      as [Hnd' Hget].
    split; [done|]. rewrite Hget, alist_get_set.
    rewrite filter_cons. destruct (String.eqb_spec (error_type e) t) as [Heq|Hne].
    + rewrite decide_True by done. subst t. simpl. lia.
    + rewrite decide_False by done. lia.
Qed.

(** X9. The error summary counts each of the first ten error texts once,
    under its type: the count shown for a type is the number of those
    texts that have it, and no type is listed twice. *)
Theorem error_counts_histogram errors t :
  NoDup (error_counts errors).*1
  ∧ alist_get t (error_counts errors) 0
    = Z.of_nat (length (filter (λ e, error_type e = t) (take 10 errors))).
Proof.
  unfold error_counts.
  destruct (fold_counts (take 10 errors) [] t) as [Hnd Hget]; [constructor|].
  split; [exact Hnd|]. rewrite Hget. simpl. lia.
Qed.

(** The invariant of the results, from any results that have it. *)
Lemma add_result_counts r time ok err :
  success_count r + error_count r = Z.of_nat (length (response_times r)) →
  Z.of_nat (length (errors r)) ≤ error_count r →
  EmptyString ∉ errors r →
  let r' := add_result r time ok err in
  success_count r' + error_count r' = Z.of_nat (length (response_times r'))
  ∧ Z.of_nat (length (errors r')) ≤ error_count r'
  ∧ EmptyString ∉ errors r'.
Proof.
  intros Hsum Herr Hne. unfold add_result.
  destruct ok; simpl; rewrite length_app; simpl.
  - repeat split; [lia|lia|done].
  - destruct err as [[|c e]|]; simpl; rewrite ?length_app; simpl.
    + repeat split; [lia|lia|done].
    + repeat split; [lia|lia|].
      intros [?|?%list_elem_of_singleton]%elem_of_app; done.
    + repeat split; [lia|lia|done].
Qed.

(** X10. However results are added, the two counters add up to the number
    of response times recorded, which are kept in the order of arrival;
    the errors listed are never more than the failures counted, and none
    of them is the empty text. *)
Theorem results_invariant (l : list (Q * bool * option string)) :
  let r := add_results new_results l in
  response_times r = (λ x, x.1.1) <$> l
  ∧ success_count r + error_count r = Z.of_nat (length l)
  ∧ success_count r = Z.of_nat (length (filter (λ x, x.1.2 = true) l))
  ∧ Z.of_nat (length (errors r)) ≤ error_count r
  ∧ EmptyString ∉ errors r.
Proof.
  simpl. unfold add_results.
  induction l as [|x l IH] using rev_ind.
  - simpl. split_and!; first [done | lia | apply not_elem_of_nil].
  - rewrite fold_left_app. simpl.
    destruct IH as (Htimes & Hsum & Hok & Herr & Hne).
    set (r := fold_left _ l new_results) in *.
    destruct (add_result_counts r x.1.1 x.1.2 x.2) as (Hsum' & Herr' & Hne');
      [by rewrite Htimes, length_fmap|done..|].
    split; [|split; [|split; [|done]]].
    + unfold add_result. destruct x.1.2; simpl; rewrite Htimes, fmap_app; done.
    + rewrite Hsum'. unfold add_result.
      destruct x.1.2; simpl; rewrite !length_app, Htimes, length_fmap; simpl; lia.
    + rewrite filter_app, length_app, filter_cons, filter_nil.
      unfold add_result. case_decide as Hx; rewrite Hx || apply not_true_is_false in Hx;
        [|rewrite Hx]; simpl; lia.
Qed.

(** * Constructing a client: further properties *)

Lemma rstrip_slash_spec s :
  ∃ n, s = rstrip_slash s +:+ string_of_list_ascii (repeat "/"%char n).
Proof.
  induction s as [|c s [n IH]].
  - by exists 0%nat.
  - simpl. destruct (rstrip_slash s) as [|a r] eqn:Hr.
    + rewrite app_empty in IH. destruct (Ascii.eqb_spec c "/") as [->|Hc].
      * exists (S n). rewrite app_empty. simpl. by rewrite <-IH.
      * exists n. rewrite app_cons, app_empty. by rewrite <-IH.
    + exists n. rewrite app_cons. by rewrite <-IH.
Qed.

Lemma rstrip_slash_no_trailing s t : rstrip_slash s ≠ t +:+ "/".
Proof.
  revert t. induction s as [|c s IH]; intros t; simpl.
  - by destruct t.
  - destruct (rstrip_slash s) as [|a r] eqn:Hr.
    + destruct (Ascii.eqb_spec c "/") as [->|Hc]; [by destruct t|].
      destruct t as [|x [|y t]]; rewrite ?app_cons, ?app_empty; congruence.
    + destruct t as [|x t]; rewrite ?app_cons, ?app_empty; [congruence|].
      intros [= -> Ht]. by apply (IH t).
Qed.

(** What a successful construction went through. *)
Lemma init_success env key base t r caching ttl cfg :
  FortitudeClient_init env key base t r caching ttl = Ret cfg →
  ∃ c k,
    str_or key Some (env "FORTITUDE_API_KEY") = Some (String c k)
    ∧ int_or t (int_of_str (getenv env "FORTITUDE_TIMEOUT" "30")) = Ret (timeout cfg)
    ∧ int_or r (int_of_str (getenv env "FORTITUDE_MAX_RETRIES" "3"))
      = Ret (max_retries cfg)
    ∧ cfg = {| api_key := String c k;
               base_url :=
                 rstrip_slash
                   (str_or base id
                      (getenv env "FORTITUDE_BASE_URL" "http://localhost:8080"));
               timeout := timeout cfg; max_retries := max_retries cfg;
               enable_cache := caching; cache_ttl := ttl |}.
Proof.
  unfold FortitudeClient_init.
  destruct (int_or t _) as [t'|]; [|done].
  destruct (int_or r _) as [r'|]; [|done]. simpl.
  destruct (str_or key Some (env "FORTITUDE_API_KEY")) as [[|c k]|]; try done.
  simpl. intros [= <-]. by exists c, k.
Qed.

(** X11. The base address of a constructed client never ends with a slash:
    it is the address passed or found in the environment with every slash
    at its end taken off, and nothing else changed. *)
Theorem base_url_has_no_trailing_slash env key base t r caching ttl cfg :
  FortitudeClient_init env key base t r caching ttl = Ret cfg →
  (∀ x, base_url cfg ≠ x +:+ "/")
  ∧ ∃ n, str_or base id (getenv env "FORTITUDE_BASE_URL" "http://localhost:8080")
         = base_url cfg +:+ string_of_list_ascii (repeat "/"%char n).
Proof.
  intros (c & k & _ & _ & _ & ->)%init_success. simpl. split.
  - intros x. apply rstrip_slash_no_trailing.
  - apply rstrip_slash_spec.
Qed.

(** X12. No client is constructed without a key: the key of a constructed
    client is not empty, and it is the argument when that is not empty,
    and otherwise the value of FORTITUDE_API_KEY. *)
Theorem api_key_of_client env key base t r caching ttl cfg :
  FortitudeClient_init env key base t r caching ttl = Ret cfg →
  api_key cfg ≠ EmptyString
  ∧ match key with
    | Some (String c k) => api_key cfg = String c k
    | _ => env "FORTITUDE_API_KEY" = Some (api_key cfg)
    end.
Proof.
  intros (c & k & Hkey & _ & _ & ->)%init_success. simpl. split; [done|].
  destruct key as [[|c' k']|]; simpl in Hkey; congruence.
Qed.

(** X13. Explicit numbers shield the construction from the environment:
    with a timeout and a retry count passed that are not 0, the variables
    FORTITUDE_TIMEOUT and FORTITUDE_MAX_RETRIES are not read, so that two
    environments that agree on the other two variables give the same
    outcome, whatever text, well formed or not, those two hold. *)
Theorem explicit_numbers_skip_environment env env' key base t r caching ttl :
  t ≠ 0 → r ≠ 0 →
  env "FORTITUDE_API_KEY" = env' "FORTITUDE_API_KEY" →
  env "FORTITUDE_BASE_URL" = env' "FORTITUDE_BASE_URL" →
  FortitudeClient_init env key base (Some t) (Some r) caching ttl
  = FortitudeClient_init env' key base (Some t) (Some r) caching ttl.
Proof.
  intros Ht Hr Hkey Hbase. unfold FortitudeClient_init, getenv.
  rewrite Hkey, Hbase. destruct t, r; done.
Qed.

Lemma digit_value_char d : (d < 10)%N → digit_value (pretty_N_char d) = Some (Z.of_N d).
Proof.
  intros Hd.
  assert (d = 0 ∨ d = 1 ∨ d = 2 ∨ d = 3 ∨ d = 4 ∨ d = 5 ∨ d = 6 ∨ d = 7 ∨ d = 8
          ∨ d = 9)%N as H by lia.
  repeat (destruct H as [->|H]; [reflexivity|]). by subst.
Qed.

(** Reading the digits that [pretty] writes. *)
Lemma parse_pretty_N_go x :
  (0 < x)%N →
  ∃ m, ∀ acc b s,
    parse_digits acc b (pretty_N_go x s) = parse_digits (acc * m + Z.of_N x) true s.
Proof.
  induction (N.lt_wf_0 x) as [x _ IH]. intros Hx.
  pose proof (N.mod_lt x 10 ltac:(lia)) as Hmod.
  pose proof (N.div_mod x 10 ltac:(lia)) as Hdiv.
  destruct (decide (x `div` 10 = 0)%N) as [H0|H0].
  - exists 10. intros acc b s. rewrite pretty_N_go_step by done.
    rewrite H0, pretty_N_go_0. simpl. rewrite digit_value_char by done.
    f_equal. lia.
  - destruct (IH (x `div` 10)%N) as [m Hm]; [apply N.div_lt; lia|lia|].
    exists (10 * m). intros acc b s. rewrite pretty_N_go_step by done.
    rewrite Hm. simpl. rewrite digit_value_char by done.
    f_equal. lia.
Qed.

Lemma strip_no_space s :
  Forall (λ c, py_isspace c = false) (list_ascii_of_string s) →
  lstrip_space (rstrip_space s) = s.
Proof.
  intros H.
  assert (rstrip_space s = s) as ->.
  { induction s as [|c s IH]; [done|]. simpl in *.
    apply Forall_cons in H as [Hc Hs]. rewrite (IH Hs).
    destruct s; [by rewrite Hc|done]. }
  destruct s as [|c s]; [done|]. simpl in *.
  apply Forall_cons in H as [Hc _]. by rewrite Hc.
Qed.

Lemma pretty_no_space (z : Z) :
  Forall (λ c, py_isspace c = false) (list_ascii_of_string (pretty z)).
Proof.
  apply pretty_Z_chars; [|done].
  intros d Hd. by apply (digit_chars (λ c, py_isspace c = false)).
Qed.

Lemma digit_char_facts c :
  is_Some (digit_value c) →
  py_isspace c = false ∧ c ≠ "+"%char ∧ c ≠ "-"%char.
Proof.
  intros [d Hd].
  destruct c as [[] [] [] [] [] [] [] []]; vm_compute in Hd; try discriminate Hd;
    (split; [reflexivity|split; discriminate]).
Qed.

Lemma count_digits_all s :
  Forall (λ c, is_Some (digit_value c)) (list_ascii_of_string s) →
  count_digits s = String.length s ∧ digit_run s = s.
Proof.
  induction s as [|c s IH]; [done|].
  cbn [list_ascii_of_string count_digits digit_run String.length].
  intros [[d Hd] Hs]%Forall_cons. rewrite Hd. by destruct (IH Hs) as [-> ->].
Qed.

Lemma pretty_pos_digits p :
  Forall (λ c, is_Some (digit_value c)) (list_ascii_of_string (pretty (Z.pos p))).
Proof.
  change (pretty (Z.pos p)) with (pretty_N_go (N.pos p) EmptyString).
  apply (pretty_N_go_chars (λ c, is_Some (digit_value c))); [|done].
  intros d Hd.
  apply (digit_chars (λ c, is_Some (digit_value c))); [by eexists..|done].
Qed.

Lemma parse_pretty_pos p : parse_digits 0 false (pretty (Z.pos p)) = Some (Z.pos p).
Proof.
  destruct (parse_pretty_N_go (N.pos p)) as [m Hm]; [lia|].
  change (pretty (Z.pos p)) with (pretty_N_go (N.pos p) EmptyString).
  rewrite Hm. reflexivity.
Qed.

(** [int] of a text of digits, with and without a minus sign. *)
Lemma int_of_digits t n :
  Forall (λ c, is_Some (digit_value c)) (list_ascii_of_string t) →
  parse_digits 0 false t = Some n →
  let too_long :=
    "Exceeds the limit (4300 digits) for integer string conversion: value has "
    +:+ pretty (String.length t)
    +:+ " digits; use sys.set_int_max_str_digits() to increase the limit" in
  if (max_str_digits <? String.length t)%nat then
    int_of_str t = Raise (ValueError too_long)
    ∧ int_of_str (String "-" t) = Raise (ValueError too_long)
  else int_of_str t = Ret n ∧ int_of_str (String "-" t) = Ret (- n).
Proof.
  intros Ht Hn. cbv zeta.
  destruct (count_digits_all t Ht) as [Hcount Hrun].
  assert (Forall (λ c, py_isspace c = false) (list_ascii_of_string t)) as Hspace.
  { eapply Forall_impl; [exact Ht|]. intros c Hc. by apply digit_char_facts. }
  assert (Forall (λ c, py_isspace c = false) (list_ascii_of_string (String "-" t)))
    as Hspace' by (by constructor).
  unfold int_of_str, py_int, int_error.
  rewrite !(strip_no_space _ Hspace), !(strip_no_space _ Hspace').
  destruct t as [|c s]; [done|].
  apply Forall_cons in Ht as [Hc _].
  destruct (digit_char_facts c Hc) as (_ & Hplus & Hminus).
  assert (match String c s with
          | String "+" r => int_literal r
          | String "-" r => Z.opp <$> int_literal r
          | t => int_literal t
          end = int_literal (String c s)) as ->
    by (destruct c as [[] [] [] [] [] [] [] []]; done).
  assert (match String c s with
          | String "+" r => r
          | String "-" r => r
          | _ => String c s
          end = String c s) as ->
    by (destruct c as [[] [] [] [] [] [] [] []]; done).
  cbv beta iota. unfold int_literal. rewrite Hrun, Hcount, Hn.
  destruct (max_str_digits <? String.length (String c s))%nat; done.
Qed.

(** The round trip of a number through its decimal text, and its limit. *)
Lemma int_of_pretty (z : Z) :
  int_of_str (pretty z) =
    if (max_str_digits <? decimal_digits z)%nat then
      Raise (ValueError
               ("Exceeds the limit (4300 digits) for integer string conversion: value has "
                +:+ pretty (decimal_digits z)
                +:+ " digits; use sys.set_int_max_str_digits() to increase the limit"))
    else Ret z.
Proof.
  destruct z as [|p|p].
  - reflexivity.
  - pose proof (int_of_digits _ _ (pretty_pos_digits p) (parse_pretty_pos p)) as H.
    cbv zeta in H. unfold decimal_digits.
    change (Z.abs (Z.pos p)) with (Z.pos p).
    destruct (max_str_digits <? String.length (pretty (Z.pos p)))%nat;
      exact (proj1 H).
  - pose proof (int_of_digits _ _ (pretty_pos_digits p) (parse_pretty_pos p)) as H.
    cbv zeta in H. unfold decimal_digits.
    change (Z.abs (Z.neg p)) with (Z.pos p).
    change (pretty (Z.neg p)) with (String "-" (pretty (Z.pos p))).
    destruct (max_str_digits <? String.length (pretty (Z.pos p)))%nat;
      exact (proj2 H).
Qed.

(** X14. [int] reads back the decimal text of a number of at most 4300
    digits, and no longer one: when FORTITUDE_TIMEOUT and
    FORTITUDE_MAX_RETRIES hold the decimal texts of [a] and [b], a client
    constructed without these arguments has, both numbers being within
    the limit, the timeout [a] and the retry count [b] (a retry count of
    0, which the argument cannot express, included); with a timeout
    beyond the limit the construction raises the [ValueError] of the
    limit, whatever the key. *)
Theorem numbers_from_environment env key base caching ttl (a b : Z) :
  env "FORTITUDE_TIMEOUT" = Some (pretty a) →
  env "FORTITUDE_MAX_RETRIES" = Some (pretty b) →
  FortitudeClient_init env key base None None caching ttl =
    if (max_str_digits <? decimal_digits a)%nat then
      Raise (ValueError
               ("Exceeds the limit (4300 digits) for integer string conversion: value has "
                +:+ pretty (decimal_digits a)
                +:+ " digits; use sys.set_int_max_str_digits() to increase the limit"))
    else if (max_str_digits <? decimal_digits b)%nat then
      Raise (ValueError
               ("Exceeds the limit (4300 digits) for integer string conversion: value has "
                +:+ pretty (decimal_digits b)
                +:+ " digits; use sys.set_int_max_str_digits() to increase the limit"))
    else
      str_or (str_or key Some (env "FORTITUDE_API_KEY"))
        (λ k, Ret {| api_key := k;
                     base_url :=
                       rstrip_slash
                         (str_or base id
                            (getenv env "FORTITUDE_BASE_URL" "http://localhost:8080"));
                     timeout := a; max_retries := b;
                     enable_cache := caching; cache_ttl := ttl |})
        (Raise (ValueError "API key is required. Set FORTITUDE_API_KEY environment variable or pass api_key parameter.")).
Proof.
  intros Ha Hb. unfold FortitudeClient_init.
  assert (getenv env "FORTITUDE_TIMEOUT" "30" = pretty a) as ->
    by (unfold getenv; by rewrite Ha).
  assert (getenv env "FORTITUDE_MAX_RETRIES" "3" = pretty b) as ->
    by (unfold getenv; by rewrite Hb).
  cbn [int_or]. rewrite !int_of_pretty.
  destruct (max_str_digits <? decimal_digits a)%nat; [done|].
  destruct (max_str_digits <? decimal_digits b)%nat; done.
Qed.

(** X15. [setup_client] passes the key of the environment or, when the
    variable is not set, a placeholder: without the two numeric variables
    it fails only when FORTITUDE_API_KEY is set to the empty text, and
    otherwise gives a client with the cache enabled and the defaults 30, 3
    and 300. *)
Theorem setup_client_outcome env :
  env "FORTITUDE_TIMEOUT" = None → env "FORTITUDE_MAX_RETRIES" = None →
  setup_client env =
    match getenv env "FORTITUDE_API_KEY" "your-api-key-here" with
    | EmptyString =>
        Raise (ValueError "API key is required. Set FORTITUDE_API_KEY environment variable or pass api_key parameter.")
    | k =>
        Ret {| api_key := k;
               base_url :=
                 rstrip_slash (getenv env "FORTITUDE_BASE_URL" "http://localhost:8080");
               timeout := 30; max_retries := 3; enable_cache := true;
               cache_ttl := 300 |}
    end.
Proof.
  intros Ht Hr. unfold setup_client, FortitudeClient_init.
  assert (getenv env "FORTITUDE_TIMEOUT" "30" = "30") as ->
    by (unfold getenv; by rewrite Ht).
  assert (getenv env "FORTITUDE_MAX_RETRIES" "3" = "3") as ->
    by (unfold getenv; by rewrite Hr).
  assert (int_of_str "30" = Ret 30) as -> by reflexivity.
  assert (int_of_str "3" = Ret 3) as -> by reflexivity.
  cbn [int_or res_bind].
  assert (str_or (Some (getenv env "FORTITUDE_BASE_URL" "http://localhost:8080")) id
            (getenv env "FORTITUDE_BASE_URL" "http://localhost:8080")
          = getenv env "FORTITUDE_BASE_URL" "http://localhost:8080") as ->.
  { by destruct (getenv env "FORTITUDE_BASE_URL" "http://localhost:8080"). }
  unfold getenv.
  destruct (env "FORTITUDE_API_KEY") as [[|c k]|]; reflexivity.
Qed.

(** * The cooperative client: further properties *)

(** A loop whose iterations dispatch once each and sleep [2^attempt] before
    going round again. *)
Lemma loop_counts (b : Z → M control) (max : Z) :
  (∀ a s, sent (b a s).2 = S (sent s)
          ∧ match (b a s).1 with
            | Ret Continue => a < max ∧ slept (b a s).2 = slept s ++ [2 ^ a]
            | _ => slept (b a s).2 = slept s
            end) →
  ∀ l s,
    match (for_attempts b l s).1 with
    | Ret None =>
        Forall (λ a, a < max) l
        ∧ sent (for_attempts b l s).2 = (sent s + length l)%nat
        ∧ slept (for_attempts b l s).2 = slept s ++ (Z.pow 2 <$> l)
    | _ =>
        (sent s < sent (for_attempts b l s).2 ≤ sent s + length l)%nat
        ∧ slept (for_attempts b l s).2
          = slept s ++ (Z.pow 2 <$> take (sent (for_attempts b l s).2 - sent s - 1) l)
    end.
Proof.
  intros Hb. induction l as [|a l IH]; intros s.
  - simpl. rewrite app_nil_r. repeat split; [constructor|lia].
  - rewrite for_attempts_cons. destruct (Hb a s) as [Hsent Hstep].
    destruct (b a s) as [[[v|]|e] s1]; simpl in *.
    + replace (sent s1 - sent s - 1)%nat with 0%nat by lia.
      simpl. rewrite app_nil_r. split; [lia|done].
    + destruct Hstep as [Ha Hslept]. specialize (IH s1).
      destruct (for_attempts b l s1) as [[[v|]|e] s']; simpl in *.
      * destruct IH as [Hlt Hs']. split; [lia|].
        replace (sent s' - sent s - 1)%nat with (S (sent s' - sent s1 - 1)) by lia.
        simpl. by rewrite Hs', Hslept, <-app_assoc.
      * destruct IH as (Hall & Hs & Hs'). split; [by constructor|].
        split; [lia|]. by rewrite Hs', Hslept, <-app_assoc.
      * destruct IH as [Hlt Hs']. split; [lia|].
        replace (sent s' - sent s - 1)%nat with (S (sent s' - sent s1 - 1)) by lia.
        simpl. by rewrite Hs', Hslept, <-app_assoc.
    + replace (sent s1 - sent s - 1)%nat with 0%nat by lia.
      simpl. rewrite app_nil_r. split; [lia|done].
Qed.


Section Cooperative.

Variable urljoin : string → string → string.
Variable transport : nat → http_request → exchange.

(** The exceptions that an iteration of the cooperative loop can raise:
    those that it makes from a response, and what [session.request]
    raises from outside the hierarchy of aiohttp. *)
Let escapes (rq : http_request) (i : nat) (e : exn) : Prop :=
  e ≠ max_retries_exceeded ∧ is_ClientError e = false
  ∧ ((∃ x, e = ApiError x) ∨ (∃ w, e = AttributeError w)
     ∨ (∃ w, e = JSONDecodeError w)
     ∨ ∃ f, result (transport i rq) = Raised f ∧ e = raise_foreign f).

Ltac escaped :=
  let e := fresh "e" in
  let He := fresh "He" in
  intros e He; simplify_eq; simpl;
  (split;
   [first [ apply request_failed_not_exceeded
          | unfold max_retries_exceeded, plain_error; congruence ]
   |split;
    [reflexivity
    |first [ by (left; eexists) | by (right; left; eexists)
           | by (right; right; left; eexists) ]]]).

Lemma async_body_spec self method url payload params use_cache key a s :
  let rq := {| req_method := method; req_url := url; req_json := payload;
               req_params := params; req_timeout := timeout self |} in
  let out := async_attempt_body transport self method url payload params
               use_cache key a s in
  (sent out.2 = S (sent s)
   ∧ match out.1 with
     | Ret Continue => a < max_retries self ∧ slept out.2 = slept s ++ [2 ^ a]
     | _ => slept out.2 = slept s
     end)
  ∧ ∀ e, out.1 = Raise e → escapes rq (sent s) e.
Proof.
  unfold async_attempt_body, try_except, dispatch, mbind, M_bind, mret, M_ret,
    raise, aio_response_json, raise_from_body, raise_raw, time_sleep, time_time,
    cache_set, escapes.
  simpl.
  set (rq := {| req_method := method; req_url := url; req_json := payload;
                req_params := params; req_timeout := timeout self |}).
  destruct (result (transport (sent s) rq)) as [what|f|r] eqn:Hx; simpl.
  - destruct (a <? max_retries self) eqn:Ha; [apply Z.ltb_lt in Ha|]; simpl;
      (split; [done|escaped]).
  - assert (is_ClientError (raise_foreign f) = false) as Hf by (by destruct f).
    rewrite Hf. simpl. split; [done|]. intros e [= <-].
    split; [by destruct f|]. split; [done|]. do 3 right. by exists f.
  - destruct (a <? max_retries self) eqn:Ha; [apply Z.ltb_lt in Ha|];
      destruct (status r =? 200), (mimetype_error r) as [w|],
        (body r) as [[]|why|why], (transient (status r)),
        (use_cache && enable_cache self && (method =? "GET")%string);
      simpl; (split; [done|escaped]).
Qed.

Section OneCooperativeCall.

Variable self : AsyncFortitudeClient.
Variables method endpoint : string.
Variable payload : option json.
Variable params : option dict.
Variable use_cache : bool.

Let url := urljoin (base_url (config self)) endpoint.
Let key := cache_key method url params.
Let rq : http_request :=
  {| req_method := method; req_url := url; req_json := payload;
     req_params := params; req_timeout := timeout (config self) |}.
Let body_ :=
  async_attempt_body transport (config self) method url payload params use_cache key.
Let loop := for_attempts body_ (range (max_retries (config self) + 1)).
Let acall := async_make_request urljoin transport self method endpoint payload params
               use_cache.

Lemma acall_unfold s :
  acall s =
    if negb (_session self) then
      (Raise (RuntimeError "Client not initialized. Use 'async with' statement."), s)
    else
      match cache_check (config self) method key use_cache s with
      | (Ret (Some cached), s') => (Ret cached, s')
      | (Ret None, s') =>
          match loop s' with
          | (Ret (Some v), s'') => (Ret v, s'')
          | (Ret None, s'') => (Raise max_retries_exceeded, s'')
          | (Raise e, s'') => (Raise e, s'')
          end
      | (Raise e, s') => (Raise e, s')
      end.
Proof.
  unfold acall, async_make_request. destruct (_session self); simpl; [|done].
  fold url. fold key. fold body_. fold loop. unfold mbind, M_bind.
  destruct (cache_check (config self) method key use_cache s) as [[[cached|]|e] s'];
    try done.
  destruct (loop s') as [[[v|]|e] s'']; done.
Qed.

Lemma async_loop_counts s :
  match (loop s).1 with
  | Ret None =>
      max_retries (config self) < 0 ∧ (loop s).2 = (loop s).2
      ∧ sent (loop s).2 = sent s ∧ slept (loop s).2 = slept s
  | _ =>
      (sent s < sent (loop s).2 ≤ sent s + Z.to_nat (max_retries (config self) + 1))%nat
      ∧ slept (loop s).2
        = slept s ++ (Z.pow 2 <$> seqZ 0 (Z.of_nat (sent (loop s).2)
                                          - Z.of_nat (sent s) - 1))
  end.
Proof.
  pose proof (loop_counts body_ (max_retries (config self))
                (λ a s, proj1 (async_body_spec _ _ _ _ _ _ _ a s))
                (range (max_retries (config self) + 1)) s) as H.
  fold loop in H. unfold range in H. rewrite length_seqZ in H.
  destruct (loop s) as [[[v|]|e] s']; simpl in *.
  - destruct H as [Hlt Hs]. split; [done|].
    rewrite Hs, take_seqZ by lia. do 3 f_equal. lia.
  - destruct H as (Hall & Hs & Hs').
    destruct (decide (0 ≤ max_retries (config self))) as [Hmax|Hmax].
    + exfalso. rewrite Forall_forall in Hall.
      specialize (Hall (max_retries (config self))).
      rewrite elem_of_seqZ in Hall. lia.
    + rewrite seqZ_nil in Hs' by lia. simpl in Hs'. rewrite app_nil_r in Hs'.
      repeat split; [lia|lia|done].
  - destruct H as [Hlt Hs]. split; [done|].
    rewrite Hs, take_seqZ by lia. do 3 f_equal. lia.
Qed.

(** X16. A call of the cooperative client dispatches at most
    [max_retries + 1] times ([max_retries] not being negative), and not at
    all while its session is not open. *)
Theorem async_attempts_bounded s :
  0 ≤ max_retries (config self) →
  0 ≤ dispatched s (acall s).2 ≤ max_retries (config self) + 1
  ∧ (_session self = false → dispatched s (acall s).2 = 0).
Proof.
  intros Hmax. rewrite acall_unfold. unfold dispatched.
  destruct (_session self); simpl; [|lia].
  split; [|done].
  destruct (cache_check_cases urljoin (config self) method endpoint params use_cache s)
    as [[Hcheck _]|(e & Hcheck & _)]; fold url key in Hcheck; rewrite Hcheck;
    [|simpl; lia].
  pose proof (async_loop_counts s) as H.
  destruct (loop s) as [[[v|]|e] s']; simpl in *; lia.
Qed.

(** X17. The delays slept during a call of the cooperative client are
    [2^0, 2^1, ...], in this order, one for each dispatch after the first. *)
Theorem async_backoff_delays s :
  slept (acall s).2
  = slept s ++ (Z.pow 2 <$> seqZ 0 (dispatched s (acall s).2 - 1)).
Proof.
  rewrite acall_unfold. unfold dispatched.
  destruct (_session self); simpl.
  - destruct (cache_check_cases urljoin (config self) method endpoint params use_cache s)
      as [[Hcheck _]|(e & Hcheck & _)]; fold url key in Hcheck; rewrite Hcheck.
    + pose proof (async_loop_counts s) as H.
      destruct (loop s) as [[[v|]|e] s']; simpl in *; try (by destruct H).
      destruct H as (_ & _ & Hs & ->). rewrite Hs, seqZ_nil by lia.
      simpl. by rewrite app_nil_r.
    + simpl. rewrite seqZ_nil by lia. simpl. by rewrite app_nil_r.
  - rewrite seqZ_nil by lia. simpl. by rewrite app_nil_r.
Qed.


End OneCooperativeCall.

End Cooperative.

(** * Instances of the further properties *)

Lemma persistent_transport_failure_witness :
  let out := _make_request join_path unreachable true (sample_client 3 false)
               "GET" "/health" None None true initial in
  dispatched initial out.2 = 4 ∧ slept out.2 = [1; 2; 4]
  ∧ out.1 = Raise (ApiError (plain_error "Request failed: Connection refused")).
Proof.
  destruct (persistent_transport_failure join_path unreachable true
              (sample_client 3 false) "GET" "/health" None None true initial)
    as (Hn & Hs & _ & what & Hlast & Hout).
  - simpl. lia.
  - reflexivity.
  - intros i. by eexists.
  - injection Hlast as <-. split; [exact Hn|]. split; [exact Hs|exact Hout].
Defined.

Lemma recovers_after_retries_witness :
  let out := _make_request join_path (recovering 2) true (sample_client 3 true)
               "GET" "/health" None None true initial in
  out.1 = Ret (JObj [("status", JStr "healthy")])
  ∧ sent out.2 = 3%nat ∧ slept out.2 = [1; 2].
Proof.
  destruct (recovers_after_retries join_path (recovering 2) true
              (sample_client 3 true) "GET" "/health" None None true initial
              2 healthy (JObj [("status", JStr "healthy")]))
    as (Hout & Hn & Hs & _).
  - simpl. lia.
  - reflexivity.
  - intros [|[|i]] Hi; [reflexivity|reflexivity|lia].
  - reflexivity.
  - reflexivity.
  - reflexivity.
  - split; [exact Hout|]. split; [exact Hn|exact Hs].
Defined.

Lemma result_provenance_witness :
  let out := _make_request join_path (always healthy) true (sample_client 3 false)
               "GET" "/health" None None true initial in
  out.1 = Ret (JObj [("status", JStr "healthy")])
  ∧ ∃ r, result (always healthy (Nat.pred (sent out.2))
                   {| req_method := "GET";
                      req_url := join_path (base_url (sample_client 3 false)) "/health";
                      req_json := None; req_params := None;
                      req_timeout := timeout (sample_client 3 false) |})
         = Responded r
         ∧ status r = 200.
Proof.
  split; [reflexivity|].
  destruct (result_provenance join_path (always healthy) true (sample_client 3 false)
              "GET" "/health" None None true initial
              (JObj [("status", JStr "healthy")]) eq_refl)
    as [[Hsame _]|[_ (r & Hr & Hst & _)]].
  - apply (f_equal sent) in Hsame. discriminate Hsame.
  - exists r. split; [exact Hr|exact Hst].
Defined.


Lemma repeat_served_from_cache_witness :
  let first := _make_request join_path (always healthy) true (sample_client 3 true)
                 "GET" "/health" None None true initial in
  first.1 = Ret (JObj [("status", JStr "healthy")])
  ∧ _make_request join_path (always healthy) true (sample_client 3 true)
      "GET" "/health" None None true first.2
    = (Ret (JObj [("status", JStr "healthy")]), first.2).
Proof.
  split; [reflexivity|].
  apply (repeat_served_from_cache join_path (always healthy) true
           (sample_client 3 true) "GET" "/health" None None true initial None
           (JObj [("status", JStr "healthy")]));
    [reflexivity|reflexivity|reflexivity|simpl; lia|reflexivity].
Defined.


Lemma base_url_has_no_trailing_slash_witness :
  let cfg := {| api_key := "k"; base_url := "http://api.example"; timeout := 45;
                max_retries := 5; enable_cache := true; cache_ttl := 60 |} in
  FortitudeClient_init sample_env (Some "k") (Some "http://api.example//") None (Some 5)
    true 60
  = Ret cfg
  ∧ base_url cfg ≠ "http://api.example/".
Proof.
  split; [reflexivity|].
  exact (proj1 (base_url_has_no_trailing_slash sample_env (Some "k")
                  (Some "http://api.example//") None (Some 5) true 60 _ eq_refl)
           "http://api.example").
Defined.

Lemma api_key_of_client_witness :
  let cfg := {| api_key := "k"; base_url := "http://localhost:8080"; timeout := 45;
                max_retries := 3; enable_cache := false; cache_ttl := 300 |} in
  FortitudeClient_init sample_env (Some "k") None None None false 300 = Ret cfg
  ∧ api_key cfg ≠ EmptyString.
Proof.
  split; [reflexivity|].
  exact (proj1 (api_key_of_client sample_env (Some "k") None None None false 300 _
                  eq_refl)).
Defined.

Lemma explicit_numbers_skip_environment_witness :
  FortitudeClient_init empty_env (Some "k") None (Some 10) (Some 5) false 300
  = FortitudeClient_init noisy_env (Some "k") None (Some 10) (Some 5) false 300.
Proof.
  apply explicit_numbers_skip_environment; [lia|lia|reflexivity|reflexivity].
Defined.

Lemma numbers_from_environment_witness :
  FortitudeClient_init numeric_env (Some "k") None None None false 300
  = Ret {| api_key := "k"; base_url := "http://localhost:8080"; timeout := 45;
           max_retries := 0; enable_cache := false; cache_ttl := 300 |}.
Proof.
  exact (numbers_from_environment numeric_env (Some "k") None false 300 45 0
           eq_refl eq_refl).
Defined.

Lemma setup_client_outcome_witness :
  setup_client empty_env
  = Ret {| api_key := "your-api-key-here"; base_url := "http://localhost:8080";
           timeout := 30; max_retries := 3; enable_cache := true; cache_ttl := 300 |}.
Proof. exact (setup_client_outcome empty_env eq_refl eq_refl). Defined.

Lemma async_attempts_bounded_witness :
  let self := {| config := sample_client 3 false; _session := true |} in
  0 ≤ max_retries (config self)
  ∧ 0 ≤ dispatched initial
           (async_make_request join_path (always (garbled_response 500 "oops" None))
              self "GET" "/health" None None true initial).2
      ≤ max_retries (config self) + 1.
Proof.
  assert (0 ≤ max_retries (sample_client 3 false)) as Hmax by (simpl; lia).
  split; [exact Hmax|].
  exact (proj1 (async_attempts_bounded join_path
                  (always (garbled_response 500 "oops" None))
                  {| config := sample_client 3 false; _session := true |}
                  "GET" "/health" None None true initial Hmax)).
Defined.

